(** * Command dispatch core: JSON-RPC adapter, line adapter, parameter parsers

    Shallow embedding of the three parts of [src/rpc/JsonRpcServer.ts]: the
    JSON-RPC server ([JsonRpcServer]), the line server ([TcpCliServer]) and
    the command handler with its parameter parsers ([CommandHandler]).

    Modelling conventions.
    - An object whose keys the code enumerates (the command table, the
      argument template [runtime.args] of a command) is the list of its
      entries in enumeration order, one entry per key. For keys that are not
      array indices this is the order in which the keys were declared or
      added.
    - An object that the code only reads and writes by key (a JSON object,
      the object minimist returns, the materialized arguments) is a
      [gmap string _].
    - The prototype chain of objects is not modelled: a key that was never
      set reads as [undefined]. The code finds the names of
      [Object.prototype] ([toString], [constructor], ...) in every object;
      a theorem whose conclusion rests on a key being absent is stated for
      names outside [Observing.inheritedNames].
    - A thrown exception or a rejected promise is an explicit error result.
    - A JavaScript number is an exact rational extended with NaN and the two
      infinities; rounding to binary64 is not modelled. A theorem about the
      number a text is read as is stated for texts whose exact value is a
      binary64 number ([Observing.isDouble]).
    - Strings are sequences of 8-bit code units. *)

From Stdlib Require Import Ascii String QArith.
From stdpp Require Import gmap strings list fin_maps pretty.

Open Scope string_scope.
#[local] Set Warnings "-clear-no-such-hyp".

(** ** JavaScript values *)

Inductive JsNumber : Type :=
| NaN
| Infinity (negative : bool)
| Finite (q : Q).

#[warnings="-register-all"] Inductive JsValue : Type :=
| JUndefined
| JNull
| JBool (b : bool)
| JNumber (n : JsNumber)
| JString (s : string)
| JArray (elements : list JsValue)
| JObject (properties : gmap string JsValue).

(** [x == null]: true of [undefined] and [null] only. *)
Definition isNullish (v : JsValue) : bool :=
  match v with
  | JUndefined | JNull => true
  | _ => false
  end.

(** ** Fallible computations

    A [throw] is an [Err]; [try]/[catch] is a match on the result. *)

Inductive Result (E A : Type) : Type :=
| Ok (a : A)
| Err (e : E).
Arguments Ok {E A} a.
Arguments Err {E A} e.

Definition bind {E A B} (r : Result E A) (k : A -> Result E B) : Result E B :=
  match r with
  | Ok a => k a
  | Err e => Err e
  end.

Notation "'let?' x ':=' r 'in' k" := (bind r (fun x => k))
  (at level 10, x name, r at level 100, k at level 200).

Definition isOk {E A} (r : Result E A) : bool :=
  match r with Ok _ => true | Err _ => false end.

(** A [for] loop over [items] whose body may leave it early, by a [throw]
    or a [return]. *)
Fixpoint forEach {E A S : Type} (items : list A)
    (body : A -> S -> Result E S) (state : S) : Result E S :=
  match items with
  | [] => Ok state
  | item :: rest =>
      let? state' := body item state in
      forEach rest body state'
  end.

(** A thrown value: an [Error] object with its message, or any other value
    with its [String(..)] rendering. *)
Inductive Exn : Type :=
| ErrorObj (message : string)
| Raised (rendering : string).

(** [e instanceof Error ? e.message : String(e)] *)
Definition exnText (e : Exn) : string :=
  match e with
  | ErrorObj message => message
  | Raised rendering => rendering
  end.

(** ** Parameter parser library ([CommandHandler.ts]) *)

Module Parsers.

(** White space of [parseInt], [parseFloat] and of the regular-expression
    class [\s], among the code units below 256: TAB, LF, VT, FF, CR, SP and
    NBSP. *)
Definition isWhiteSpace (c : ascii) : bool :=
  let n := N_of_ascii c in
  ((n =? 9) || (n =? 10) || (n =? 11) || (n =? 12) || (n =? 13)
   || (n =? 32) || (n =? 160))%N.

Fixpoint trimStart (s : string) : string :=
  match s with
  | String c rest => if isWhiteSpace c then trimStart rest else s
  | EmptyString => s
  end.

(** Value of a digit in radix up to 36: [0-9], [a-z], [A-Z]. *)
Definition digitValue (c : ascii) : option Z :=
  let n := Z.of_N (N_of_ascii c) in
  if ((48 <=? n) && (n <=? 57))%Z then Some (n - 48)%Z
  else if ((97 <=? n) && (n <=? 122))%Z then Some (n - 87)%Z
  else if ((65 <=? n) && (n <=? 90))%Z then Some (n - 55)%Z
  else None.

(** The longest prefix of [s] made of radix-[radix] digits, read as an
    integer; [acc] is the value read so far, [None] when no digit was read. *)
Fixpoint digitsPrefix (radix : Z) (s : string) (acc : option Z) : option Z :=
  match s with
  | String c rest =>
      match digitValue c with
      | Some d =>
          if (d <? radix)%Z
          then digitsPrefix radix rest (Some (radix * default 0 acc + d))%Z
          else acc
      | None => acc
      end
  | EmptyString => acc
  end.

(** Sign prefix shared by [parseInt] and [parseFloat]: [true] for [-]. *)
Definition takeSign (s : string) : bool * string :=
  match s with
  | String "-" rest => (true, rest)
  | String "+" rest => (false, rest)
  | _ => (false, s)
  end.

Definition signed (negative : bool) (n : Z) : Z :=
  if negative then (- n)%Z else n.

(** [parseInt(s)] with no radix argument: leading white space is dropped, a
    sign and a [0x]/[0X] prefix are read, then the longest run of digits;
    whatever follows is ignored. NaN when there is no digit. *)
Definition parseInt (s : string) : JsNumber :=
  let '(negative, s1) := takeSign (trimStart s) in
  let '(radix, s2) :=
    match s1 with
    | String "0" (String "x" rest) => (16%Z, rest)
    | String "0" (String "X" rest) => (16%Z, rest)
    | _ => (10%Z, s1)
    end in
  match digitsPrefix radix s2 None with
  | None => NaN
  | Some n => Finite (inject_Z (signed negative n))
  end.

(** A run of decimal digits: its value, its length, and the rest. *)
Fixpoint decimalDigits (s : string) (value : Z) (count : nat)
  : Z * nat * string :=
  match s with
  | String c rest =>
      match digitValue c with
      | Some d =>
          if (d <? 10)%Z
          then decimalDigits rest (10 * value + d)%Z (S count)
          else (value, count, s)
      | None => (value, count, s)
      end
  | EmptyString => (value, count, s)
  end.

(** The optional exponent part [e|E (+|-)? digits]; 0 when it is absent or
    has no digit. *)
Definition exponentPart (s : string) : Z :=
  match s with
  | String c rest =>
      if (c =? "e")%char || (c =? "E")%char then
        let '(negative, digits) := takeSign rest in
        let '(value, count, _) := decimalDigits digits 0 0 in
        match count with
        | O => 0%Z
        | S _ => signed negative value
        end
      else 0%Z
  | EmptyString => 0%Z
  end.

(** [mantissa * 10 ^ exponent] as a reduced fraction. *)
Definition scale10 (mantissa exponent : Z) : Q :=
  if (0 <=? exponent)%Z
  then inject_Z (mantissa * 10 ^ exponent)
  else Qred (mantissa # Z.to_pos (10 ^ (- exponent))).

(** [parseFloat(s)]: leading white space is dropped, then the longest prefix
    that is a decimal literal ([Infinity], digits with an optional fraction
    and exponent) is read; whatever follows is ignored. NaN when there is
    none. *)
Definition parseFloat (s : string) : JsNumber :=
  let '(negative, s1) := takeSign (trimStart s) in
  if String.prefix "Infinity" s1 then Infinity negative
  else
    let '(intValue, intCount, s2) := decimalDigits s1 0 0 in
    let '(mantissa, fracCount, s3) :=
      match s2 with
      | String "." rest =>
          let '(m, n, r) := decimalDigits rest intValue 0 in
          match intCount, n with
          | O, O => (m, n, s2)
          | _, _ => (m, n, r)
          end
      | _ => (intValue, O, s2)
      end in
    match intCount, fracCount with
    | O, O => NaN
    | _, _ =>
        Finite (scale10 (signed negative mantissa)
                        (exponentPart s3 - Z.of_nat fracCount))
    end.

(** [a < b] on numbers: false as soon as one side is NaN. *)
Definition js_lt (a b : JsNumber) : bool :=
  match a, b with
  | NaN, _ => false
  | _, NaN => false
  | Infinity true, Infinity true => false
  | Infinity true, _ => true
  | Infinity false, _ => false
  | Finite _, Infinity negative => negb negative
  | Finite x, Finite y => negb (Qle_bool y x)
  end.

Definition isNaN (n : JsNumber) : bool :=
  match n with NaN => true | _ => false end.

(** The [Error]s thrown by [cmdNumberParser], with the message of each. *)
Inductive NumberParserError : Type :=
| DataIsNull                        (* "Data is null" *)
| NumberIsNaN                       (* "Number is NaN or null" *)
| NumberBelowMin (min : JsNumber)   (* "Number must be greater than "+min *)
| NumberAboveMax (max : JsNumber).  (* "Number must be less than "+max *)

(** [cmdNumberParser(decimal, min, max, optional)(data)]. An absent bound or
    an absent [data] ([undefined] or [null]) is [None]; the parser returns
    [null], here [Ok None], for absent data when it is optional. *)
Definition cmdNumberParser (decimal : bool) (min max : option JsNumber)
    (optional : bool) (data : option string)
  : Result NumberParserError (option JsNumber) :=
  match data with
  | None => if optional then Ok None else Err DataIsNull
  | Some text =>
      let num := if decimal then parseFloat text else parseInt text in
      let? _ := if isNaN num then Err NumberIsNaN else Ok tt in
      let? _ :=
        match min with
        | Some lo => if js_lt num lo then Err (NumberBelowMin lo) else Ok tt
        | None => Ok tt
        end in
      let? _ :=
        match max with
        | Some hi => if js_lt hi num then Err (NumberAboveMax hi) else Ok tt
        | None => Ok tt
        end in
      Ok (Some num)
  end.

(** [cmdStringParser(minLength, maxLength, optional)(data)] on any value
    the adapters hand over: [data.length] is the length of a string or of
    an array and [undefined] otherwise, which passes both comparisons. *)
Definition lengthOf (data : JsValue) : option nat :=
  match data with
  | JString text => Some (String.length text)
  | JArray elements => Some (length elements)
  | _ => None
  end.

Definition cmdStringParser (minLength maxLength : option nat) (optional : bool)
    (data : JsValue) : Result Exn JsValue :=
  if isNullish data then
    if optional then Ok JNull else Err (ErrorObj "Data is null")
  else
    let? _ :=
      match minLength, lengthOf data with
      | Some lo, Some n =>
          if (n <? lo)%nat
          then Err (ErrorObj ("Invalid string length, min length: " ++ pretty lo))
          else Ok tt
      | _, _ => Ok tt
      end in
    let? _ :=
      match maxLength, lengthOf data with
      | Some hi, Some n =>
          if (hi <? n)%nat
          then Err (ErrorObj ("Invalid string length, max length: " ++ pretty hi))
          else Ok tt
      | _, _ => Ok tt
      end in
    Ok data.

(** [cmdEnumParser(possibleValues, optional)(data)]: [set.has(data)] holds
    of a string that is one of the candidates, and of no other value. *)
Definition cmdEnumParser (possibleValues : list string) (optional : bool)
    (data : JsValue) : Result Exn JsValue :=
  if isNullish data then
    if optional then Ok JNull else Err (ErrorObj "Data is null")
  else
    match data with
    | JString text =>
        if bool_decide (text ∈ possibleValues) then Ok data
        else Err (ErrorObj ("Invalid enum value, possible values: " ++
                            String.concat ", " possibleValues))
    | _ =>
        Err (ErrorObj ("Invalid enum value, possible values: " ++
                       String.concat ", " possibleValues))
    end.

(** White space dropped at the end of a string. *)
Fixpoint trimEnd (s : string) : string :=
  match s with
  | EmptyString => EmptyString
  | String c rest =>
      match trimEnd rest with
      | EmptyString => if isWhiteSpace c then EmptyString else String c EmptyString
      | kept => String c kept
      end
  end.

(** The value of [s] when every character of it is a radix-[radix] digit;
    [acc] is the value read so far. *)
Fixpoint allDigits (radix : Z) (s : string) (acc : Z) : option Z :=
  match s with
  | EmptyString => Some acc
  | String c rest =>
      match digitValue c with
      | Some d =>
          if (d <? radix)%Z then allDigits radix rest (radix * acc + d)%Z else None
      | None => None
      end
  end.

(** One digit at least, and digits only. *)
Definition digitsOnly (radix : Z) (s : string) : option Z :=
  match s with
  | EmptyString => None
  | _ => allDigits radix s 0
  end.

(** [BigInt(s)] on a string: white space is dropped at both ends; what is
    left is nothing (the value 0), decimal digits with an optional sign, or
    binary, octal or hexadecimal digits after the prefix [0b], [0o] or [0x]
    and without a sign. [None] is the [SyntaxError] thrown on any other
    string. *)
Definition StringToBigInt (s : string) : option Z :=
  match trimEnd (trimStart s) with
  | EmptyString => Some 0%Z
  | String c rest as literal =>
      if (c =? "-")%char then Z.opp <$> digitsOnly 10 rest
      else if (c =? "+")%char then digitsOnly 10 rest
      else if (c =? "0")%char then
        match rest with
        | String p digits =>
            if (p =? "x")%char || (p =? "X")%char then digitsOnly 16 digits
            else if (p =? "o")%char || (p =? "O")%char then digitsOnly 8 digits
            else if (p =? "b")%char || (p =? "B")%char then digitsOnly 2 digits
            else digitsOnly 10 literal
        | EmptyString => digitsOnly 10 literal
        end
      else digitsOnly 10 literal
  end.

(** The errors thrown by [cmdBigIntParser], with the message of each; the
    [SyntaxError] is the one of [BigInt]. *)
Inductive BigIntParserError : Type :=
| BigIntDataIsNull                 (* "Data is null" *)
| BigIntSyntaxError (text : string) (* thrown by BigInt(data) *)
| BigIntBelowMin (min : Z)         (* "Number must be greater than "+min.toString(10) *)
| BigIntAboveMax (max : Z).        (* "Number must be less than "+max.toString(10) *)

(** [cmdBigIntParser(min, max, optional)(data)] *)
Definition cmdBigIntParser (min max : option Z) (optional : bool)
    (data : option string) : Result BigIntParserError (option Z) :=
  match data with
  | None => if optional then Ok None else Err BigIntDataIsNull
  | Some text =>
      let? num :=
        match StringToBigInt text with
        | Some n => Ok n
        | None => Err (BigIntSyntaxError text)
        end in
      let? _ :=
        match min with
        | Some lo => if (num <? lo)%Z then Err (BigIntBelowMin lo) else Ok tt
        | None => Ok tt
        end in
      let? _ :=
        match max with
        | Some hi => if (hi <? num)%Z then Err (BigIntAboveMax hi) else Ok tt
        | None => Ok tt
        end in
      Ok (Some num)
  end.

End Parsers.

(** ** Objects whose enumeration order is observed

    The command table and the argument template of a command are enumerated
    by [for .. in] and [Object.keys]: they are kept as entry lists in
    enumeration order, one entry per key. *)

Module Dict.

Abbreviation t A := (list (string * A)).

Definition keys {A} (d : t A) : list string := d.*1.

(** [d[key]] *)
Fixpoint get {A} (d : t A) (key : string) : option A :=
  match d with
  | [] => None
  | (k, a) :: rest => if decide (k = key) then Some a else get rest key
  end.

(** [d[key] = a]: an existing key keeps its place, a new one goes last. *)
Fixpoint set {A} (d : t A) (key : string) (a : A) : t A :=
  match d with
  | [] => [(key, a)]
  | (k, b) :: rest =>
      if decide (k = key) then (k, a) :: rest else (k, b) :: set rest key a
  end.

(** Every key occurs once, as in an object. *)
Definition wf {A} (d : t A) : Prop := NoDup (keys d).

End Dict.

(** ** Commands ([CommandHandler.ts]) *)

(** One entry of an [ArgsTemplate]. [parser] is the [ParamParser]: it
    returns a typed value or throws. *)
Record ArgSpec (V : Type) : Type := {
  base : bool;
  arg_description : string;
  parser : JsValue -> Result Exn V
}.
Arguments base {V} _.
Arguments arg_description {V} _.
Arguments parser {V} _ _.

(** [CommandRuntime]: [runtime_parser] is the field [runtime.parser], the
    function that executes the command on the typed arguments; its promise
    resolves to a value or rejects. *)
Record CommandRuntime (V : Type) : Type := {
  args : Dict.t (ArgSpec V);
  runtime_parser : gmap string V -> Result Exn JsValue
}.
Arguments args {V} _.
Arguments runtime_parser {V} _ _.

Record Command (V : Type) : Type := {
  cmd : string;
  description : string;
  runtime : CommandRuntime V
}.
Arguments cmd {V} _.
Arguments description {V} _.
Arguments runtime {V} _.

(** One call of a command's [runtime.parser]. *)
Record Invocation (V : Type) : Type := {
  invoked : string;
  arguments : gmap string V
}.
Arguments invoked {V} _.
Arguments arguments {V} _.

Module CommandHandler.
Section Registry.
Context {V : Type}.

(** The constructor: [commands.forEach(cmd => this.commands[cmd.cmd] = cmd)]. *)
Definition create (commands : list (Command V)) : Dict.t (Command V) :=
  foldl (fun table c => Dict.set table (cmd c) c) [] commands.

(** [registerCommand(cmd)]: the answer and the table after the call. *)
Definition registerCommand (commands : Dict.t (Command V)) (c : Command V)
  : bool * Dict.t (Command V) :=
  match Dict.get commands (cmd c) with
  | Some _ => (false, commands)
  | None => (true, Dict.set commands (cmd c) c)
  end.

End Registry.
End CommandHandler.

(** ** JSON-RPC adapter ([JsonRpcServer.ts]) *)

Module JsonRpcErrorCodes.
Definition PARSE_ERROR : Z := (-32700)%Z.
Definition INVALID_REQUEST : Z := (-32600)%Z.
Definition METHOD_NOT_FOUND : Z := (-32601)%Z.
Definition INVALID_PARAMS : Z := (-32602)%Z.
Definition INTERNAL_ERROR : Z := (-32603)%Z.
Definition SERVER_ERROR : Z := (-32000)%Z.
End JsonRpcErrorCodes.

(** [JsonRpcError]; an absent [data] is [None]. *)
Record JsonRpcError : Type := {
  code : Z;
  message : string;
  data : option string
}.

(** [JsonRpcResponse]; the constant field [jsonrpc: "2.0"] is left out. The
    [id] is whatever value the handler puts there. *)
Inductive JsonRpcResponse : Type :=
| SuccessResponse (result : JsValue) (id : JsValue)
| ErrorResponse (error : JsonRpcError) (id : JsValue).

(** [s.includes(fragment)] *)
Fixpoint includes (fragment s : string) : bool :=
  String.prefix fragment s ||
  match s with
  | String _ rest => includes fragment rest
  | EmptyString => false
  end.

Module JsonRpcServer.
Import JsonRpcErrorCodes.

(** Truthiness of a value, as tested by [!x] and [x && ..]. *)
Definition truthy (v : JsValue) : bool :=
  match v with
  | JUndefined | JNull => false
  | JBool b => b
  | JNumber NaN => false
  | JNumber (Infinity _) => true
  | JNumber (Finite q) => negb (Qeq_bool q 0)
  | JString s => negb (String.eqb s "")
  | JArray _ | JObject _ => true
  end.

Definition isArray (v : JsValue) : bool :=
  match v with JArray _ => true | _ => false end.

(** [typeof v === 'object'] *)
Definition typeofObject (v : JsValue) : bool :=
  match v with JNull | JArray _ | JObject _ => true | _ => false end.

(** [typeof v === 'string'] *)
Definition typeofString (v : JsValue) : bool :=
  match v with JString _ => true | _ => false end.

(** [typeof v === 'number'] *)
Definition typeofNumber (v : JsValue) : bool :=
  match v with JNumber _ => true | _ => false end.

Definition isUndefined (v : JsValue) : bool :=
  match v with JUndefined => true | _ => false end.

Definition isNull (v : JsValue) : bool :=
  match v with JNull => true | _ => false end.

(** [v[key]] for a property name: the property of an object, [undefined]
    when it is absent and on every other value the handler reads from. *)
Definition getProp (v : JsValue) (key : string) : JsValue :=
  match v with
  | JObject properties => default JUndefined (properties !! key)
  | _ => JUndefined
  end.

(** [isValidJsonRpcRequest(body)] *)
Definition isValidJsonRpcRequest (body : JsValue) : bool :=
  truthy body &&
  typeofObject body &&
  match getProp body "jsonrpc" with
  | JString version => String.eqb version "2.0"
  | _ => false
  end &&
  typeofString (getProp body "method") &&
  (isUndefined (getProp body "params") || isArray (getProp body "params") ||
   (typeofObject (getProp body "params") && negb (isNull (getProp body "params")))) &&
  (isUndefined (getProp body "id") || isNull (getProp body "id") ||
   typeofString (getProp body "id") || typeofNumber (getProp body "id")).

Section Adapter.
Context {V : Type}.

(** The message of the [Error] every parsing loop rethrows. *)
Definition parsingParameter (key : string) (e : Exn) : string :=
  "Parsing parameter '" ++ key ++ "': " ++ exnText e.

(** The body shared by the loops of [parseCommandParams]:
    [try { paramsObj[key] = args[key].parser(value) } catch (e) { throw .. }]. *)
Definition assign (key : string) (spec : ArgSpec V) (value : JsValue)
    (paramsObj : gmap string V) : Result Exn (gmap string V) :=
  match parser spec value with
  | Ok typed => Ok (<[key := typed]> paramsObj)
  | Err e => Err (ErrorObj (parsingParameter key e))
  end.

(** [key in paramsObj] *)
Definition hasKey (paramsObj : gmap string V) (key : string) : bool :=
  bool_decide (is_Some (paramsObj !! key)).

(** [parseCommandParams(command, params)] *)
Definition parseCommandParams (command : Command V) (params : JsValue)
  : Result Exn (gmap string V) :=
  let template := args (runtime command) in
  if negb (truthy params) then
    forEach template
      (fun '(key, spec) paramsObj => assign key spec JUndefined paramsObj) ∅
  else
    match params with
    | JArray values =>
        let baseArgs := filter (fun entry => base entry.2 = true) template in
        let? paramsObj :=
          forEach (zip baseArgs values)
            (fun '((key, spec), value) paramsObj =>
               assign key spec value paramsObj) ∅ in
        forEach template
          (fun '(key, spec) paramsObj =>
             if negb (base spec) && negb (hasKey paramsObj key)
             then assign key spec JUndefined paramsObj
             else Ok paramsObj) paramsObj
    | JObject _ =>
        forEach template
          (fun '(key, spec) paramsObj =>
             assign key spec (getProp params key) paramsObj) ∅
    | _ => Err (ErrorObj "Parameters must be an array or object")
    end.

(** The [catch] block of [handleJsonRpcRequest]. *)
Definition onExecutionError (e : Exn) (id : JsValue) : JsonRpcResponse :=
  match e with
  | ErrorObj text =>
      if includes "Parsing parameter" text then
        ErrorResponse {| code := INVALID_PARAMS; message := "Invalid params";
                         data := Some text |} id
      else
        ErrorResponse {| code := SERVER_ERROR; message := "Server error";
                         data := Some text |} id
  | Raised rendering =>
      ErrorResponse {| code := SERVER_ERROR; message := "Server error";
                       data := Some rendering |} id
  end.

(** [handleJsonRpcRequest(body)]: the response, and the calls of
    [runtime.parser] made on the way. *)
Definition handleJsonRpcRequest (commands : Dict.t (Command V)) (body : JsValue)
  : JsonRpcResponse * list (Invocation V) :=
  if isArray body then
    (ErrorResponse {| code := INVALID_REQUEST;
                      message := "Batch requests not supported";
                      data := None |} JNull, [])
  else if negb (isValidJsonRpcRequest body) then
    (ErrorResponse {| code := INVALID_REQUEST; message := "Invalid Request";
                      data := None |}
       (if truthy body && negb (isUndefined (getProp body "id"))
        then getProp body "id" else JNull), [])
  else
    let method := getProp body "method" in
    let params := getProp body "params" in
    let id := getProp body "id" in
    match
      match method with
      | JString name => Dict.get commands name
      | _ => None
      end
    with
    | None =>
        (ErrorResponse {| code := METHOD_NOT_FOUND; message := "Method not found";
                          data := None |} id, [])
    | Some command =>
        match parseCommandParams command params with
        | Err e => (onExecutionError e id, [])
        | Ok parsedArgs =>
            let call := {| invoked := cmd command; arguments := parsedArgs |} in
            match runtime_parser (runtime command) parsedArgs with
            | Ok result => (SuccessResponse result id, [call])
            | Err e => (onExecutionError e id, [call])
            end
        end
    end.

End Adapter.
End JsonRpcServer.

(** ** Line adapter ([TcpCliServer.ts]) *)

Definition quote : ascii := "034"%char.
Definition newline : string := String "010"%char "".

Module TcpCliServer.
Import Parsers.

(** *** The tokenizer

    [line.match(regex)] for the global regular expression with the two
    alternatives (1) a quote, one or more characters other than a quote, a
    quote, and (2) one or more characters that are not white space.

    The matcher runs over the line once. Between two matches, a quote that
    opens a span of the first kind starts a quoted match; any other
    character that is not white space starts a run of the second kind; white
    space is skipped. *)

Inductive ScanMode : Type :=
| Between
| InQuoted
| InRun.

(** Does [s], the text after an opening quote, go on with one or more
    characters other than a quote and then a quote? [seen] tells that a
    character other than a quote was read. *)
Fixpoint closesQuoted (s : string) (seen : bool) : bool :=
  match s with
  | String c rest => if (c =? quote)%char then seen else closesQuoted rest true
  | EmptyString => false
  end.

Definition snoc (s : string) (c : ascii) : string := s ++ String c "".

(** The matches of the regular expression, in order; [current] is the text
    of the match being read. *)
Fixpoint scan (s : string) (mode : ScanMode) (current : string) : list string :=
  match s with
  | EmptyString =>
      match mode with
      | Between => []
      | InQuoted | InRun => [current]
      end
  | String c rest =>
      match mode with
      | Between =>
          if (c =? quote)%char && closesQuoted rest false
          then scan rest InQuoted (String c "")
          else if isWhiteSpace c then scan rest Between ""
          else scan rest InRun (String c "")
      | InQuoted =>
          if (c =? quote)%char
          then snoc current c :: scan rest Between ""
          else scan rest InQuoted (snoc current c)
      | InRun =>
          if isWhiteSpace c
          then current :: scan rest Between ""
          else scan rest InRun (snoc current c)
      end
  end.

(** [element.replace(.., '')] for the global pattern of one quote: every
    quote is removed. *)
Fixpoint stripQuotes (s : string) : string :=
  match s with
  | String c rest =>
      if (c =? quote)%char then stripQuotes rest else String c (stripQuotes rest)
  | EmptyString => EmptyString
  end.

(** The array [args] built from the matches; no match is empty, so none is
    dropped by [if (!element) return]. *)
Definition tokenize (line : string) : list string :=
  stripQuotes <$> scan line Between "".

(** *** Help texts *)

Section Help.
Context {V : Type}.

(** [lines.join(sep)] *)
Definition join (sep : string) (lines : list string) : string :=
  String.concat sep lines.

Definition getUsageString (c : Command V) : string :=
  cmd c ++ " " ++
  join " " ((fun entry => "<" ++ entry.1 ++ ">") <$>
            filter (fun entry => base entry.2 = true) (args (runtime c))).

Definition getParamsDescription (c : Command V) : list string :=
  (fun entry => "--" ++ entry.1 ++ " : " ++ arg_description entry.2) <$>
  args (runtime c).

Definition getCommandHelp (c : Command V) : string :=
  let lines := ["Command: " ++ cmd c;
                "Description: " ++ description c;
                "Usage: " ++ getUsageString c] in
  let paramLines := getParamsDescription c in
  let lines := if decide (length paramLines = 0) then lines
               else (lines ++ ["Params:"])%list in
  join newline (lines ++ ((fun param => "    " +:+ param) <$> paramLines))%list.

Definition getHelp (commands : Dict.t (Command V)) : string :=
  join newline
    (["Available commands:"] ++
     ((fun entry => "    " +:+ entry.1 +:+ " : " +:+ description entry.2) <$> commands) ++
     ["Use 'help <command name>' for usage examples, description & help around a specific command!"])%list.

End Help.

(** *** Dispatch of one line *)

(** What [parseLine] does: it returns a promise that resolves to a text or
    rejects, or it throws before returning one. *)
Inductive LineResult : Type :=
| Resolved (text : string)
| Rejected (e : Exn)
| Thrown (e : Exn).

(** [e.message] in the [catch] of the binding loop: a thrown value that is
    not an [Error] (and neither [null] nor [undefined]) has none, and the
    concatenation prints [undefined]. *)
Definition messageOf (e : Exn) : string :=
  match e with
  | ErrorObj text => text
  | Raised _ => "undefined"
  end.

(** [v[index]] on the array [result._] *)
Definition getIndex (v : JsValue) (index : nat) : JsValue :=
  match v with
  | JArray elements => default JUndefined (elements !! index)
  | _ => JUndefined
  end.

(** [result[key]] on the object minimist returns *)
Definition readKey (result : gmap string JsValue) (key : string) : JsValue :=
  default JUndefined (result !! key).

Section Adapter.
Context {V : Type}.

(** The package [minimist] is not part of the repository: [minimist args
    strings] stands for [minimist(args, {string: strings})], which returns
    an object holding the array [_] and the flags, or throws. *)
Variable minimist : list string -> list string -> Result Exn (gmap string JsValue).

(** [JSON.stringify(v, null, 2)] and [String(v)], built in. *)
Variable JSON_stringify : JsValue -> string.
Variable String_of : JsValue -> string.

Definition formatResponseForCli (response : JsValue) : string :=
  match response with
  | JString text => text
  | JArray _ | JObject _ => JSON_stringify response
  | _ => String_of response
  end.

(** The text [parseLine] answers when the parser of [key] throws [e]. *)
Definition parsingError (c : Command V) (key : string) (e : Exn) : string :=
  "Error: Parsing parameter '" ++ key ++ "': " ++ messageOf e ++
  newline ++ newline ++ getCommandHelp c.

(** The state of the binding loop of [parseLine]: the object [result], which
    the loop writes to, the counter [index] and [paramsObj]. *)
Record BindState : Type := {
  result : gmap string JsValue;
  index : nat;
  paramsObj : gmap string V
}.

(** One turn of the loop [for (let key in cmd.runtime.args)]; [Err text] is
    the early [return Promise.resolve(text)]. *)
Definition bindStep (c : Command V) (entry : string * ArgSpec V)
    (st : BindState) : Result string BindState :=
  let '(key, spec) := entry in
  let '(result1, index1) :=
    if base spec then
      (if isNullish (readKey (result st) key) &&
          negb (isNullish (getIndex (readKey (result st) "_") (index st)))
       then <[key := getIndex (readKey (result st) "_") (index st)]> (result st)
       else result st,
       S (index st))
    else (result st, index st) in
  match parser spec (readKey result1 key) with
  | Ok typed =>
      Ok {| result := result1; index := index1;
            paramsObj := <[key := typed]> (paramsObj st) |}
  | Err e => Err (parsingError c key e)
  end.

(** [parseLine(line, socket)]: its result and the calls of [runtime.parser]. *)
Definition parseLine (commands : Dict.t (Command V)) (line : string)
  : LineResult * list (Invocation V) :=
  if String.eqb line "" then (Resolved "", [])
  else
    match tokenize line with
    | [] => (Thrown (ErrorObj "Cannot read properties of null (reading 'forEach')"), [])
    | first :: others =>
        if String.eqb first "help" then
          match others with
          | second :: _ =>
              match Dict.get commands second with
              | Some c => (Resolved (getCommandHelp c), [])
              | None => (Resolved (getHelp commands), [])
              end
          | [] => (Resolved (getHelp commands), [])
          end
        else
          match Dict.get commands first with
          | None =>
              (Resolved "Error: Unknown command, please type 'help' to get a list of all commands!", [])
          | Some c =>
              match minimist (first :: others)
                             ("_" :: Dict.keys (args (runtime c))) with
              | Err e => (Thrown e, [])
              | Ok parsed =>
                  match forEach (args (runtime c)) (bindStep c)
                          {| result := parsed; index := 1; paramsObj := ∅ |} with
                  | Err text => (Resolved text, [])
                  | Ok st =>
                      let call := {| invoked := cmd c;
                                     arguments := paramsObj st |} in
                      match runtime_parser (runtime c) (paramsObj st) with
                      | Ok response =>
                          (Resolved (formatResponseForCli response), [call])
                      | Err e => (Rejected e, [call])
                      end
                  end
              end
          end
    end.

End Adapter.
End TcpCliServer.

(** ** The long options of minimist

    A model of the package for the command lines made of plain words and of
    the long options [--key=value], [--key value], [--key] and [--no-key],
    every key being listed in the [string] option. [None] on anything else:
    short options, keys with a dot, keys outside the [string] option. *)

Module Minimist.

(** [setKey(argv, [key], value)], no key being boolean: a first value is
    stored, a value after a boolean replaces it, later values pile up in an
    array. *)
Definition setKey (argv : gmap string JsValue) (key : string) (value : JsValue)
  : gmap string JsValue :=
  match argv !! key with
  | None | Some JUndefined | Some (JBool _) => <[key := value]> argv
  | Some (JArray elements) => <[key := JArray (elements ++ [value])]> argv
  | Some old => <[key := JArray [old; value]]> argv
  end.

(** The test [^(-|--)[^-]] on the token after a flag. *)
Definition looksLikeFlag (token : string) : bool :=
  match token with
  | String "-" (String c rest) =>
      if (c =? "-")%char
      then match rest with
           | String d _ => negb (d =? "-")%char
           | EmptyString => false
           end
      else true
  | _ => false
  end.

(** [s] cut at its first [=]. *)
Fixpoint splitEq (s : string) : option (string * string) :=
  match s with
  | EmptyString => None
  | String c rest =>
      if (c =? "=")%char then Some (EmptyString, rest)
      else match splitEq rest with
           | Some (key, value) => Some (String c key, value)
           | None => None
           end
  end.

Inductive Token : Type :=
| Word (text : string)
| LongEq (key value : string)
| LongNo (key : string)
| Long (key : string)
| Unsupported.

Definition classify (token : string) : Token :=
  match token with
  | String "-" (String "-" (String c rest)) =>
      match splitEq rest with
      | Some (key, value) =>
          if (c =? "=")%char then Unsupported else LongEq (String c key) value
      | None =>
          match String c rest with
          | String "n" (String "o" (String "-" (String d key))) =>
              LongNo (String d key)
          | key => Long key
          end
      end
  | String "-" (String c _) =>
      if (c =? "-")%char then Word token else Unsupported
  | _ => Word token
  end.

Definition supported (strings : list string) (key : string) : bool :=
  bool_decide (key ∈ strings) &&
  negb (includes "." key) &&
  negb (String.eqb key "constructor") && negb (String.eqb key "__proto__").

Fixpoint walk (strings tokens : list string) (argv : gmap string JsValue)
  : option (gmap string JsValue) :=
  match tokens with
  | [] => Some argv
  | token :: rest =>
      match classify token with
      | Unsupported => None
      | Word text => walk strings rest (setKey argv "_" (JString text))
      | LongEq key value =>
          if supported strings key
          then walk strings rest (setKey argv key (JString value))
          else None
      | LongNo key =>
          if supported strings key
          then walk strings rest (setKey argv key (JBool false))
          else None
      | Long key =>
          if supported strings key then
            match rest with
            | next :: rest' =>
                if looksLikeFlag next
                then walk strings rest (setKey argv key (JString ""))
                else walk strings rest' (setKey argv key (JString next))
            | [] => Some (setKey argv key (JString ""))
            end
          else None
      end
  end.

(** Everything after a first [--] goes to [_] unread. *)
Fixpoint splitDashDash (tokens : list string) : list string * list string :=
  match tokens with
  | [] => ([], [])
  | token :: rest =>
      if String.eqb token "--" then ([], rest)
      else let '(before, after) := splitDashDash rest in (token :: before, after)
  end.

Definition parse (tokens strings : list string) : option (gmap string JsValue) :=
  let '(before, after) := splitDashDash tokens in
  argv ← walk strings before {[ "_" := JArray [] ]};
  Some (foldl (fun argv token => setKey argv "_" (JString token)) argv after).

(** The model as a function of the type of [minimist]; a command line it
    does not cover is answered by an exception. *)
Definition minimist (tokens strings : list string)
  : Result Exn (gmap string JsValue) :=
  match parse tokens strings with
  | Some argv => Ok argv
  | None => Err (Raised "command line outside the model")
  end.

End Minimist.


(** ** Decimal strings ([Utils.ts])

    Amounts are [bigint]s, here [Z]; [decimalCount] is a [number] that holds
    an integer, here [Z]. [amount.toString(10)] is [pretty amount]. *)

Module Utils.
Import Parsers.

Definition dot : ascii := "."%char.

(** [s.split(".")[0]]: what comes before the first dot. *)
Fixpoint untilDot (s : string) : string :=
  match s with
  | EmptyString => EmptyString
  | String c rest => if (c =? dot)%char then EmptyString else String c (untilDot rest)
  end.

(** What comes after the first dot; nothing when there is no dot. *)
Fixpoint afterDot (s : string) : string :=
  match s with
  | EmptyString => EmptyString
  | String c rest => if (c =? dot)%char then rest else afterDot rest
  end.

(** [s.includes(".")] *)
Fixpoint hasDot (s : string) : bool :=
  match s with
  | EmptyString => false
  | String c rest => (c =? dot)%char || hasDot rest
  end.

(** ["0".repeat(n)] *)
Fixpoint zeros (n : nat) : string :=
  match n with
  | O => EmptyString
  | S m => String "0" (zeros m)
  end.

(** [s.substring(0, n)]: a negative [n] counts as 0. *)
Definition substringTo (s : string) (n : Z) : string :=
  String.substring 0 (Z.to_nat n) s.

(** [s.substring(n, s.length)] *)
Definition substringFrom (s : string) (n : nat) : string :=
  String.substring n (String.length s - n) s.

(** [s.padEnd(n, "0")] *)
Definition padEnd (s : string) (n : Z) : string :=
  s ++ zeros (Z.to_nat n - String.length s).

(** [s.padStart(n, "0")] *)
Definition padStart (s : string) (n : Z) : string :=
  zeros (Z.to_nat n - String.length s) ++ s.

(** [fromDecimal(amount, decimalCount)]; [None] when [BigInt] throws. *)
Definition fromDecimal (amount : string) (decimalCount : Z) : option Z :=
  if hasDot amount then
    let before := untilDot amount in
    let after := untilDot (afterDot amount) in
    if (decimalCount <? 0)%Z then
      StringToBigInt
        (substringTo before (Z.of_nat (String.length before) + decimalCount))
    else if (decimalCount <? Z.of_nat (String.length after))%Z then
      StringToBigInt ((if String.eqb before "0" then "" else before) ++
                      substringTo after decimalCount)
    else
      StringToBigInt ((if String.eqb before "0" then "" else before) ++
                      padEnd after decimalCount)
  else
    if (decimalCount <? 0)%Z then
      StringToBigInt
        (substringTo amount (Z.of_nat (String.length amount) + decimalCount))
    else StringToBigInt (amount ++ zeros (Z.to_nat decimalCount)).

(** [decimalPart.charAt(i) === "0"] *)
Definition zeroAt (s : string) (i : nat) : bool :=
  match String.get i s with
  | Some c => (c =? "0")%char
  | None => false
  end.

(** The loop [for (let i = start; i--; i >= 0)] of [toDecimal]: the test
    [i--] ends the loop when [i] is 0 and otherwise steps [i] down before
    the body runs; the body moves [cutTo] to [i] on a zero and leaves the
    loop on any other digit. *)
Fixpoint cutLoop (decimalPart : string) (i cutTo : nat) : nat :=
  match i with
  | O => cutTo
  | S j => if zeroAt decimalPart j then cutLoop decimalPart j j else cutTo
  end.

(** [toDecimal(amount, decimalCount, cut)] *)
Definition toDecimal (amount : Z) (decimalCount : Z) (cut : bool) : string :=
  if (decimalCount <=? 0)%Z then
    pretty amount ++ zeros (Z.to_nat (- decimalCount))
  else
    let amountStr := padStart (pretty amount) (decimalCount + 1) in
    let splitPoint := (String.length amountStr - Z.to_nat decimalCount)%nat in
    let decimalPart := substringFrom amountStr splitPoint in
    let cutTo :=
      if cut && (0 <? String.length decimalPart)%nat then
        let cutTo := cutLoop decimalPart (String.length decimalPart - 1)
                       (String.length decimalPart) in
        if (cutTo =? 0)%nat then 1%nat else cutTo
      else String.length decimalPart in
    String.substring 0 splitPoint amountStr ++ "." ++
    String.substring 0 cutTo decimalPart.

End Utils.

(** ** What is observed of an answer *)

Module Observing.

(** The names every object inherits from [Object.prototype]. The code reads
    the command table with [commands[name]], which finds these names in a
    table that does not hold them; the embedding reads them as absent, so a
    property about a name that is looked up and not found is stated for the
    names outside this list. *)
Definition inheritedNames : list string :=
  ["constructor"; "__proto__"; "hasOwnProperty"; "isPrototypeOf";
   "propertyIsEnumerable"; "toLocaleString"; "toString"; "valueOf";
   "__defineGetter__"; "__defineSetter__"; "__lookupGetter__"; "__lookupSetter__"].

(** The names of [names] are names that objects do not inherit. A property
    of the materializer that rests on [params[key]], [key in paramsObj] or
    [paramsObj[key] = value] behaving as on a map is stated for parameters
    with such names. *)
Definition ownNames (names : list string) : Prop :=
  Forall (fun name => name ∉ inheritedNames) names.


(** The [id] of a response. *)
Definition responseId (response : JsonRpcResponse) : JsValue :=
  match response with
  | SuccessResponse _ id => id
  | ErrorResponse _ id => id
  end.

(** The code of an error response. *)
Definition responseCode (response : JsonRpcResponse) : option Z :=
  match response with
  | SuccessResponse _ _ => None
  | ErrorResponse error _ => Some (code error)
  end.

(** Every character of [s] satisfies [test]. *)
Fixpoint allChars (test : ascii → bool) (s : string) : bool :=
  match s with
  | EmptyString => true
  | String c rest => test c && allChars test rest
  end.

Definition isQuote (c : ascii) : bool := (c =? quote)%char.

(** Neither a quote nor white space. *)
Definition plainChar (c : ascii) : bool :=
  negb (isQuote c) && negb (Parsers.isWhiteSpace c).

(** Every entry of a command table is filed under the name of its command. *)
Definition keyedByName {V : Type} (commands : Dict.t (Command V)) : Prop :=
  ∀ name c, (name, c) ∈ commands → name = cmd c.

Definition isDecimalDigit (c : ascii) : bool :=
  match Parsers.digitValue c with
  | Some d => (d <? 10)%Z
  | None => false
  end.

(** The value of a string of decimal digits, 0 for the empty string. *)
Definition digitsValue (s : string) : Z := default 0%Z (Parsers.allDigits 10 s 0).

End Observing.

(** ** Readings of the materializer

    A binding is a parameter with the raw value its parser is called on. The
    definitions below say, for each shape of the parameters of a request and
    for a command line, which bindings are parsed and in which order. *)

Module Reading.
Section Reading.
Context {V : Type}.

Definition Binding : Type := string * ArgSpec V * JsValue.

Definition bindingKeys (bindings : list Binding) : list string := bindings.*1.*1.

(** The shape of [params] in a request that passed the validation. *)
Definition wellShaped (params : JsValue) : Prop :=
  params = JUndefined ∨ (∃ values, params = JArray values) ∨
  (∃ properties, params = JObject properties).

(** The parsers are called in the order of the bindings; the first failure
    ends the calls and is reported with the name of its parameter. *)
Fixpoint parseBindings (bindings : list Binding) (paramsObj : gmap string V)
  : Result Exn (gmap string V) :=
  match bindings with
  | [] => Ok paramsObj
  | (key, spec, value) :: rest =>
      match parser spec value with
      | Ok typed => parseBindings rest (<[key := typed]> paramsObj)
      | Err e => Err (ErrorObj (JsonRpcServer.parsingParameter key e))
      end
  end.

(** [key] is the first parameter of [bindings] whose parser fails, and it
    fails with [e]. *)
Definition firstFailure (bindings : list Binding) (key : string) (e : Exn) : Prop :=
  ∃ pre spec value post,
    bindings = (pre ++ (key, spec, value) :: post)%list ∧
    Forall (fun b : Binding => isOk (parser b.1.2 b.2) = true) pre ∧
    parser spec value = Err e.

(** Every parameter, in declaration order, with the value [source] has for
    it. *)
Definition keyedBindings (template : Dict.t (ArgSpec V))
    (source : string -> JsValue) : list Binding :=
  (fun entry => (entry.1, entry.2, source entry.1)) <$> template.

(** Written from the specification, for an array of positional values: in
    declaration order, each positional parameter takes the next value while
    there is one; a positional parameter left without a value and every
    other parameter take the absent value. *)
Fixpoint declaredBindings (template : Dict.t (ArgSpec V)) (values : list JsValue)
  : list Binding :=
  match template with
  | [] => []
  | (key, spec) :: rest =>
      if base spec then
        match values with
        | value :: more => (key, spec, value) :: declaredBindings rest more
        | [] => (key, spec, JUndefined) :: declaredBindings rest []
        end
      else (key, spec, JUndefined) :: declaredBindings rest values
  end.

Definition baseArgs (template : Dict.t (ArgSpec V)) : Dict.t (ArgSpec V) :=
  filter (fun entry => base entry.2 = true) template.

Definition otherArgs (template : Dict.t (ArgSpec V)) : Dict.t (ArgSpec V) :=
  filter (fun entry => base entry.2 = false) template.

(** What [parseCommandParams] parses for an array: the positional
    parameters that have a value, then the parameters that are not
    positional. *)
Definition arrayBindings (template : Dict.t (ArgSpec V)) (values : list JsValue)
  : list Binding :=
  (((fun pair => (pair.1.1, pair.1.2, pair.2)) <$> zip (baseArgs template) values) ++
   keyedBindings (otherArgs template) (fun _ => JUndefined))%list.

(** The property of the specification for a request: the failure reported
    is the one of the first failing parameter of [bindings]. *)
Definition reportsFirstFailure (command : Command V) (params : JsValue)
    (bindings : list Binding) : Prop :=
  ∀ key e, firstFailure bindings key e →
    JsonRpcServer.parseCommandParams command params =
    Err (ErrorObj (JsonRpcServer.parsingParameter key e)).

(** *** The command line *)

(** The parser calls of [parseLine], with the text it answers on a failure. *)
Fixpoint parseBound (c : Command V) (bindings : list Binding)
    (paramsObj : gmap string V) : Result string (gmap string V) :=
  match bindings with
  | [] => Ok paramsObj
  | (key, spec, value) :: rest =>
      match parser spec value with
      | Ok typed => parseBound c rest (<[key := typed]> paramsObj)
      | Err e => Err (TcpCliServer.parsingError c key e)
      end
  end.

(** The words of the command line that are not flags: the array [_]. *)
Definition words (parsed : gmap string JsValue) : list JsValue :=
  match TcpCliServer.readKey parsed "_" with
  | JArray elements => elements
  | _ => []
  end.

(** Written from the specification: a parameter bound by a flag takes the
    value of the flag; the words left over fill, in declaration order, the
    positional parameters that no flag binds. *)
Fixpoint fillSlots (template : Dict.t (ArgSpec V)) (parsed : gmap string JsValue)
    (leftover : list JsValue) : list Binding :=
  match template with
  | [] => []
  | (key, spec) :: rest =>
      let flag := TcpCliServer.readKey parsed key in
      if base spec && isNullish flag then
        match leftover with
        | word :: more => (key, spec, word) :: fillSlots rest parsed more
        | [] => (key, spec, flag) :: fillSlots rest parsed []
        end
      else (key, spec, flag) :: fillSlots rest parsed leftover
  end.

(** The number of positional parameters among the first [j]. *)
Definition rank (template : Dict.t (ArgSpec V)) (j : nat) : nat :=
  length (baseArgs (take j template)).

(** What [parseLine] binds the parameter at place [j] to: the value of its
    flag; for a positional parameter without a flag, the word whose place
    among the words is the place of the parameter among the positional
    parameters, counted from [first]. *)
Definition slotValue (template : Dict.t (ArgSpec V)) (parsed : gmap string JsValue)
    (first j : nat) (entry : string * ArgSpec V) : JsValue :=
  let flag := TcpCliServer.readKey parsed entry.1 in
  let word := TcpCliServer.getIndex (TcpCliServer.readKey parsed "_")
                (first + rank template j) in
  if base entry.2 && isNullish flag && negb (isNullish word) then word else flag.

Definition slotBindings (template : Dict.t (ArgSpec V)) (parsed : gmap string JsValue)
    (first : nat) : list Binding :=
  imap (fun j entry => (entry.1, entry.2, slotValue template parsed first j entry))
       template.

(** What [parseLine] does once the parameters are bound: it answers the
    text of the failure, or calls the command on the typed arguments and
    answers with its formatted result. *)
Definition lineOutcome (JSON_stringify String_of : JsValue → string)
    (c : Command V) (bound : Result string (gmap string V))
  : TcpCliServer.LineResult * list (Invocation V) :=
  match bound with
  | Err text => (TcpCliServer.Resolved text, [])
  | Ok typed =>
      (match runtime_parser (runtime c) typed with
       | Ok response =>
           TcpCliServer.Resolved
             (TcpCliServer.formatResponseForCli JSON_stringify String_of response)
       | Err e => TcpCliServer.Rejected e
       end,
       [{| invoked := cmd c; arguments := typed |}])
  end.

(** A line that names the registered command [c] and that minimist reads
    as [parsed]. *)
Definition dispatches
    (minimist : list string → list string → Result Exn (gmap string JsValue))
    (commands : Dict.t (Command V)) (line : string)
    (c : Command V) (parsed : gmap string JsValue) : Prop :=
  ∃ first others,
    TcpCliServer.tokenize line = first :: others ∧
    first ≠ "help" ∧
    Dict.get commands first = Some c ∧
    minimist (first :: others) ("_" :: Dict.keys (args (runtime c))) = Ok parsed.

(** The property of the specification for a command line: the parameters
    are bound as [fillSlots] says. *)
Definition bindsAsSpecified
    (minimist : list string → list string → Result Exn (gmap string JsValue))
    (JSON_stringify String_of : JsValue → string)
    (commands : Dict.t (Command V)) (line : string) : Prop :=
  ∀ c parsed, dispatches minimist commands line c parsed →
    TcpCliServer.parseLine minimist JSON_stringify String_of commands line =
    lineOutcome JSON_stringify String_of c
      (parseBound c (fillSlots (args (runtime c)) parsed (drop 1 (words parsed))) ∅).

(** The property of the specification for a line that names no command:
    the answer is the text of the specification, as it stands. *)
Definition answersUnknownCommand
    (minimist : list string → list string → Result Exn (gmap string JsValue))
    (JSON_stringify String_of : JsValue → string)
    (commands : Dict.t (Command V)) (line : string) : Prop :=
  ∀ first others,
    TcpCliServer.tokenize line = first :: others →
    first ≠ "help" →
    Dict.get commands first = None →
    TcpCliServer.parseLine minimist JSON_stringify String_of commands line =
    (TcpCliServer.Resolved
       "Unknown command, please type 'help' to get a list of all commands!", []).

(** The property of the specification for an execution that fails: the
    response of a request that reached the command is a [SERVER_ERROR]. *)
Definition executionFailureIsServerError (commands : Dict.t (Command V))
    (body : JsValue) : Prop :=
  ∀ name command parsedArgs e,
    JsonRpcServer.isValidJsonRpcRequest body = true →
    JsonRpcServer.getProp body "method" = JString name →
    Dict.get commands name = Some command →
    JsonRpcServer.parseCommandParams command (JsonRpcServer.getProp body "params")
      = Ok parsedArgs →
    runtime_parser (runtime command) parsedArgs = Err e →
    (JsonRpcServer.handleJsonRpcRequest commands body).1 =
    ErrorResponse {| code := JsonRpcErrorCodes.SERVER_ERROR;
                     message := "Server error";
                     data := Some (exnText e) |}
                  (JsonRpcServer.getProp body "id").

End Reading.
End Reading.

(** ** Sample commands *)

Module Samples.
Import Parsers.

Definition required : JsValue -> Result Exn JsValue := cmdStringParser None None false.

Definition echo (parsedArgs : gmap string JsValue) : Result Exn JsValue :=
  Ok (JObject parsedArgs).

(** [add]: a positional parameter [a] and a named parameter [b]. *)
Definition add : Command JsValue :=
  {| cmd := "add"; description := "Adds two numbers";
     runtime :=
       {| args := [("a", {| base := true; arg_description := "first"; parser := required |});
                   ("b", {| base := false; arg_description := "second"; parser := required |})];
          runtime_parser := echo |} |}.

(** [pair]: two positional parameters. *)
Definition pair : Command JsValue :=
  {| cmd := "pair"; description := "Takes two values";
     runtime :=
       {| args := [("a", {| base := true; arg_description := "first"; parser := required |});
                   ("b", {| base := true; arg_description := "second"; parser := required |})];
          runtime_parser := echo |} |}.

(** [tag]: a named parameter declared before a positional one of three
    characters at least. *)
Definition tag : Command JsValue :=
  {| cmd := "tag"; description := "Tags a value";
     runtime :=
       {| args := [("x", {| base := false; arg_description := "label"; parser := required |});
                   ("a", {| base := true; arg_description := "value";
                            parser := cmdStringParser (Some 3%nat) None false |})];
          runtime_parser := echo |} |}.

(** [store]: no parameter; the execution fails. *)
Definition store : Command JsValue :=
  {| cmd := "store"; description := "Stores the state";
     runtime :=
       {| args := [];
          runtime_parser := fun _ => Err (ErrorObj "Parsing parameter table failed") |} |}.

Definition request (method : string) (params id : JsValue) : JsValue :=
  JObject (<["jsonrpc" := JString "2.0"]>
           (<["method" := JString method]>
            (<["params" := params]> {[ "id" := id ]}))).

(** A stand-in for [JSON.stringify] and [String]. *)
Definition render (v : JsValue) : string :=
  match v with
  | JString text => text
  | _ => "[value]"
  end.

(** The line [pair --a=1 2] and what minimist returns for its words. *)
Definition pairLine : string := "pair --a=1 2".


Definition pairFlagged : gmap string JsValue :=
  <["a" := JString "1"]> {[ "_" := JArray [JString "pair"; JString "2"] ]}.

(** A request whose [id] is a boolean. *)
Definition booleanId : JsValue :=
  JObject (<["jsonrpc" := JString "2.0"]>
           (<["method" := JString "add"]> {[ "id" := JBool true ]})).

(** [note]: a positional parameter and a named one, both optional. *)
Definition note : Command JsValue :=
  {| cmd := "note"; description := "Takes a note";
     runtime :=
       {| args := [("text", {| base := true; arg_description := "text";
                               parser := cmdStringParser None None true |});
                   ("tag", {| base := false; arg_description := "tag";
                              parser := cmdStringParser None None true |})];
          runtime_parser := echo |} |}.

(** A request for [add] with its two parameters by name. *)
Definition addByName : JsValue :=
  request "add" (JObject (<["a" := JString "1"]> {[ "b" := JString "2" ]}))
          (JNumber (Finite 7)).

(** What minimist returns for the words [pair 1 2] and [pair 1 2 3 4]. *)
Definition pairWords : gmap string JsValue :=
  {[ "_" := JArray [JString "pair"; JString "1"; JString "2"] ]}.

Definition pairMoreWords : gmap string JsValue :=
  {[ "_" := JArray [JString "pair"; JString "1"; JString "2"; JString "3"; JString "4"] ]}.

(** The line of the specification: add, a quoted 5, and the flag b=10. *)
Definition addLine : string :=
  "add " ++ String quote ("5" ++ String quote " --b=10").

End Samples.

(** * Properties *)

(** ** Ordered dictionaries *)

Module DictFacts.
Section Facts.
Context {A : Type}.
Implicit Types (d : Dict.t A) (key : string) (a : A).

Lemma get_set_eq d key a : Dict.get (Dict.set d key a) key = Some a.
Proof.
  induction d as [|[k b] rest IH]; simpl.
  - by rewrite decide_True.
  - destruct (decide (k = key)) as [->|Hne]; simpl.
    + by rewrite decide_True.
    + by rewrite decide_False.
Qed.

Lemma get_set_ne d key other a :
  other ≠ key → Dict.get (Dict.set d key a) other = Dict.get d other.
Proof.
  intros Hne. induction d as [|[k b] rest IH]; simpl.
  - by rewrite decide_False.
  - destruct (decide (k = key)) as [->|Hk]; simpl.
    + by rewrite !decide_False.
    + destruct (decide (k = other)); [done | apply IH].
Qed.

Lemma wf_unique d key a b :
  Dict.wf d → (key, a) ∈ d → (key, b) ∈ d → a = b.
Proof.
  unfold Dict.wf, Dict.keys. induction d as [|[k c] rest IH]; simpl.
  - intros _ Hin. by apply elem_of_nil in Hin.
  - intros Hnd Ha Hb. apply NoDup_cons in Hnd as [Hfresh Hnd].
    assert (∀ x, (k, x) ∈ rest → False) as Habsurd.
    { intros x Hx. apply Hfresh. apply list_elem_of_fmap. by exists (k, x). }
    apply elem_of_cons in Ha as [Ha|Ha]; apply elem_of_cons in Hb as [Hb|Hb].
    + congruence.
    + injection Ha as -> _. destruct (Habsurd _ Hb).
    + injection Hb as -> _. destruct (Habsurd _ Ha).
    + by apply IH.
Qed.

End Facts.
End DictFacts.

(** ** The registry *)

Module RegistryFacts.
Import CommandHandler.
Section Facts.
Context {V : Type}.


End Facts.
End RegistryFacts.

(** ** The materializer *)

Module MaterializerFacts.
Import JsonRpcServer Reading.
Section Facts.
Context {V : Type}.
Implicit Types (template : Dict.t (ArgSpec V)) (bindings : list (@Binding V))
  (paramsObj : gmap string V) (values : list JsValue).

Lemma parseBindings_app bindings1 bindings2 paramsObj :
  parseBindings (bindings1 ++ bindings2) paramsObj =
  let? paramsObj' := parseBindings bindings1 paramsObj in
  parseBindings bindings2 paramsObj'.
Proof.
  revert paramsObj.
  induction bindings1 as [|[[key spec] value] rest IH]; intros paramsObj; simpl.
  - done.
  - destruct (parser spec value); [apply IH | done].
Qed.

Lemma parseBindings_all_ok bindings paramsObj :
  Forall (fun b : Binding => isOk (parser b.1.2 b.2) = true) bindings →
  ∃ m, parseBindings bindings paramsObj = Ok m.
Proof.
  intros Hall. revert paramsObj.
  induction Hall as [|[[key spec] value] rest Hok _ IH]; intros paramsObj; simpl.
  - by eexists.
  - simpl in Hok. destruct (parser spec value); [apply IH | done].
Qed.

Lemma parseBindings_first_failure bindings paramsObj key e :
  firstFailure bindings key e →
  parseBindings bindings paramsObj = Err (ErrorObj (parsingParameter key e)).
Proof.
  intros (pre & spec & value & post & -> & Hpre & Hfail).
  rewrite parseBindings_app.
  destruct (parseBindings_all_ok pre paramsObj Hpre) as [m ->].
  simpl. by rewrite Hfail.
Qed.

Lemma parseBindings_dom bindings paramsObj m :
  parseBindings bindings paramsObj = Ok m →
  dom m = dom paramsObj ∪ list_to_set (bindingKeys bindings).
Proof.
  revert paramsObj.
  induction bindings as [|[[key spec] value] rest IH]; intros paramsObj; simpl.
  - intros [= ->]. set_solver.
  - destruct (parser spec value) as [typed|]; [| done].
    intros H. rewrite (IH _ H). rewrite dom_insert_L.
    unfold bindingKeys. set_solver.
Qed.

Lemma parseBindings_other bindings paramsObj m key :
  parseBindings bindings paramsObj = Ok m →
  key ∉ bindingKeys bindings → m !! key = paramsObj !! key.
Proof.
  revert paramsObj.
  induction bindings as [|[[k spec] value] rest IH]; intros paramsObj; simpl.
  - by intros [= ->].
  - destruct (parser spec value) as [typed|]; [| done].
    intros H Hnotin. unfold bindingKeys in Hnotin. simpl in Hnotin.
    apply not_elem_of_cons in Hnotin as [Hne Hnotin].
    rewrite (IH _ H Hnotin). by rewrite lookup_insert_ne.
Qed.

Lemma parseBindings_lookup bindings paramsObj m key spec value :
  NoDup (bindingKeys bindings) →
  parseBindings bindings paramsObj = Ok m →
  (key, spec, value) ∈ bindings →
  ∃ typed, parser spec value = Ok typed ∧ m !! key = Some typed.
Proof.
  revert paramsObj.
  induction bindings as [|[[k s] v] rest IH]; intros paramsObj Hnd; simpl.
  - intros _ Hin. by apply elem_of_nil in Hin.
  - unfold bindingKeys in Hnd. simpl in Hnd. apply NoDup_cons in Hnd as [Hfresh Hnd].
    destruct (parser s v) as [typed|] eqn:Hp; [| done].
    intros H Hin. apply elem_of_cons in Hin as [[= -> -> ->]|Hin].
    + exists typed. split; [done |].
      rewrite (parseBindings_other _ _ _ _ H Hfresh). apply lookup_insert_eq.
    + by apply (IH _ Hnd H).
Qed.

Lemma forEach_keyed template (source : string → JsValue) paramsObj :
  forEach template
    (fun '(key, spec) paramsObj => assign key spec (source key) paramsObj) paramsObj
  = parseBindings (keyedBindings template source) paramsObj.
Proof.
  revert paramsObj.
  induction template as [|[key spec] rest IH]; intros paramsObj; simpl; [done |].
  unfold assign. destruct (parser spec (source key)); simpl; [apply IH | done].
Qed.

Lemma forEach_zipped (pairs : list (string * ArgSpec V * JsValue)) paramsObj :
  forEach pairs
    (fun '((key, spec), value) paramsObj => assign key spec value paramsObj) paramsObj
  = parseBindings ((fun pair => (pair.1.1, pair.1.2, pair.2)) <$> pairs) paramsObj.
Proof.
  revert paramsObj.
  induction pairs as [|[[key spec] value] rest IH]; intros paramsObj; simpl; [done |].
  unfold assign. destruct (parser spec value); simpl; [apply IH | done].
Qed.

(** The second loop of the array branch parses every parameter that is not
    positional: none of them is in [paramsObj] when its turn comes. *)
Lemma forEach_others template paramsObj :
  Dict.wf template →
  (∀ key spec, (key, spec) ∈ template → base spec = false → paramsObj !! key = None) →
  forEach template
    (fun '(key, spec) paramsObj =>
       if negb (base spec) && negb (hasKey paramsObj key)
       then assign key spec JUndefined paramsObj
       else Ok paramsObj) paramsObj
  = parseBindings (keyedBindings (otherArgs template) (fun _ => JUndefined)) paramsObj.
Proof.
  unfold Dict.wf, Dict.keys, otherArgs. revert paramsObj.
  induction template as [|[key spec] rest IH]; intros paramsObj Hnd Hfresh; [done |].
  simpl in Hnd. apply NoDup_cons in Hnd as [Hkey Hnd].
  rewrite filter_cons. simpl. destruct (base spec) eqn:Hbase; simpl.
  - apply IH; [done |].
    intros k s Hin. apply Hfresh. by right.
  - assert (hasKey paramsObj key = false) as ->.
    { unfold hasKey. rewrite (Hfresh key spec); [| by left | done].
      apply bool_decide_eq_false. by intros [? ?]. }
    simpl. unfold assign. destruct (parser spec JUndefined) as [typed|]; simpl; [| done].
    apply IH; [done |]. intros k s Hin Hs.
    rewrite lookup_insert_ne.
    + apply (Hfresh k s); [by right | done].
    + intros ->. apply Hkey. apply list_elem_of_fmap. by exists (k, s).
Qed.

Lemma parseCommandParams_absent (command : Command V) params :
  truthy params = false →
  parseCommandParams command params =
  parseBindings (keyedBindings (args (runtime command)) (fun _ => JUndefined)) ∅.
Proof.
  intros Hfalsy. unfold parseCommandParams. rewrite Hfalsy. simpl.
  apply (forEach_keyed _ (fun _ => JUndefined)).
Qed.

Lemma parseCommandParams_named (command : Command V) properties :
  parseCommandParams command (JObject properties) =
  parseBindings (keyedBindings (args (runtime command)) (getProp (JObject properties))) ∅.
Proof.
  unfold parseCommandParams. simpl.
  apply (forEach_keyed _ (fun key => default JUndefined (properties !! key))).
Qed.

Lemma baseArgs_keys_base template key spec :
  (key, spec) ∈ baseArgs template → (key, spec) ∈ template ∧ base spec = true.
Proof. unfold baseArgs. rewrite list_elem_of_filter. simpl. tauto. Qed.

Lemma parseCommandParams_array (command : Command V) values :
  Dict.wf (args (runtime command)) →
  parseCommandParams command (JArray values) =
  parseBindings (arrayBindings (args (runtime command)) values) ∅.
Proof.
  intros Hwf. unfold parseCommandParams, arrayBindings. simpl.
  rewrite parseBindings_app. rewrite forEach_zipped.
  fold (baseArgs (args (runtime command))).
  destruct (parseBindings _ ∅) as [m|] eqn:Hfirst; simpl; [| done].
  apply forEach_others; [done |].
  intros key spec Hin Hbase.
  rewrite (parseBindings_other _ _ _ key Hfirst); [apply lookup_empty |].
  unfold bindingKeys. rewrite <- !list_fmap_compose.
  intros Hkey. apply list_elem_of_fmap in Hkey as ([[k s] v] & Hk & Hzip).
  simpl in Hk. subst k.
  apply elem_of_zip_l in Hzip. apply baseArgs_keys_base in Hzip as [Hin' Hs].
  assert (spec = s) as -> by exact (DictFacts.wf_unique _ _ _ _ Hwf Hin Hin').
  congruence.
Qed.

End Facts.
End MaterializerFacts.

(** ** The JSON-RPC adapter *)

Module JsonRpcFacts.
Import JsonRpcErrorCodes JsonRpcServer Reading MaterializerFacts.
Section Facts.
Context {V : Type}.
Implicit Types (commands : Dict.t (Command V)) (command : Command V)
  (body params : JsValue).

Lemma includes_parsingParameter key e :
  includes "Parsing parameter" (parsingParameter key e) = true.
Proof. reflexivity. Qed.

Lemma assign_error key (spec : ArgSpec V) value paramsObj e :
  assign key spec value paramsObj = Err e →
  ∃ e', parser spec value = Err e' ∧ e = ErrorObj (parsingParameter key e').
Proof.
  unfold assign. destruct (parser spec value) as [typed|e']; [done |].
  intros [= <-]. by exists e'.
Qed.

Lemma forEach_error {A S : Type} (items : list A) (body : A → S → Result Exn S)
    (state : S) (e : Exn) (P : Exn → Prop) :
  (∀ item s e, item ∈ items → body item s = Err e → P e) →
  forEach items body state = Err e → P e.
Proof.
  revert state. induction items as [|item rest IH]; intros state Hbody; simpl; [done |].
  destruct (body item state) as [state'|e0] eqn:Hstep; simpl.
  - apply IH. intros i s e1 Hin. apply Hbody. by right.
  - intros [= <-]. eapply Hbody; [by left | done].
Qed.

Lemma valid_params_shape body :
  isValidJsonRpcRequest body = true → wellShaped (getProp body "params").
Proof.
  unfold isValidJsonRpcRequest, wellShaped. intros Hvalid.
  repeat (apply andb_prop in Hvalid as [Hvalid ?]).
  destruct (getProp body "params"); simpl in *; try done; eauto.
Qed.

(** Whatever [parseCommandParams] throws on well-shaped parameters is the
    failure of the parser of a declared parameter, under its name. *)
Lemma parseCommandParams_error command params e :
  wellShaped params →
  parseCommandParams command params = Err e →
  ∃ key spec value e', (key, spec) ∈ args (runtime command) ∧
                       parser spec value = Err e' ∧
                       e = ErrorObj (parsingParameter key e').
Proof.
  set (P := fun e => ∃ key spec value e', (key, spec) ∈ args (runtime command) ∧
                       parser spec value = Err e' ∧
                       e = ErrorObj (parsingParameter key e')).
  assert (∀ key spec value paramsObj e0,
            (key, spec) ∈ args (runtime command) →
            assign key spec value paramsObj = Err e0 → P e0) as Hassign.
  { intros key spec value paramsObj e0 Hin Herr.
    apply assign_error in Herr as (e' & Hfail & ->). by exists key, spec, value, e'. }
  intros Hshape Herr. change (P e).
  destruct Hshape as [->|[[values ->]|[properties ->]]];
    unfold parseCommandParams in Herr; simpl in Herr.
  - revert Herr. apply forEach_error. intros [key spec] s e0 Hin. by apply Hassign.
  - destruct (forEach (zip _ values) _ ∅) as [paramsObj|e0] eqn:Hfirst; simpl in Herr.
    + revert Herr. apply forEach_error. intros [key spec] s e0 Hin.
      destruct (negb (base spec) && negb (hasKey s key)); [by apply Hassign | done].
    + injection Herr as <-. revert Hfirst. apply forEach_error.
      intros [[key spec] value] s e1 Hin. apply Hassign.
      apply elem_of_zip_l in Hin. by apply list_elem_of_filter in Hin as [_ Hin].
  - revert Herr. apply forEach_error. intros [key spec] s e0 Hin. by apply Hassign.
Qed.

(** C7. A body that is an array, whatever it holds and whatever the command
    table is, is answered by the error -32600 (INVALID_REQUEST) with the
    message [Batch requests not supported] and the id [null]; no command is
    looked up or called. *)
Theorem batch_requests_rejected commands (elements : list JsValue) :
  handleJsonRpcRequest commands (JArray elements) =
  (ErrorResponse {| code := (-32600)%Z;
                    message := "Batch requests not supported";
                    data := None |} JNull, []).
Proof. reflexivity. Qed.

(** C4, on the code. A body that is not an array and fails the validation
    is answered by INVALID_REQUEST; the id of the answer is [null] when the
    body has no [id], and the [id] of the body otherwise, whatever its type:
    an id that is an object or a boolean is sent back as it is. *)
Theorem invalid_request_echoes_any_id commands body :
  isArray body = false →
  isValidJsonRpcRequest body = false →
  handleJsonRpcRequest commands body =
  (ErrorResponse {| code := (-32600)%Z; message := "Invalid Request"; data := None |}
     (if isUndefined (getProp body "id") then JNull else getProp body "id"), []).
Proof.
  intros Harray Hvalid. unfold handleJsonRpcRequest. rewrite Harray, Hvalid. simpl.
  destruct (truthy body) eqn:Htruthy; simpl.
  - by destruct (isUndefined (getProp body "id")).
  - by destruct body.
Qed.

(** C3, on the code. For a valid request whose method is registered:
    a failure of the materializer is the failure of the parser of a declared
    parameter and is answered by -32602 (INVALID_PARAMS) with [data] the
    text [Parsing parameter '<name>': <message>], the command not being
    called; a failure of the execution is answered by -32000 (SERVER_ERROR)
    with [data] the message of the failure when that message does not
    contain [Parsing parameter]. The catch block tells the two cases apart
    by that text alone, so the failure of an execution whose message
    contains it is taken for a failure of the materializer and answered by
    -32602, although the command was called. *)
Theorem execution_and_parsing_failures commands body name command :
  isValidJsonRpcRequest body = true →
  getProp body "method" = JString name →
  Dict.get commands name = Some command →
  let params := getProp body "params" in
  let id := getProp body "id" in
  (∀ e, parseCommandParams command params = Err e →
     ∃ key spec value e',
       (key, spec) ∈ args (runtime command) ∧ parser spec value = Err e' ∧
       handleJsonRpcRequest commands body =
       (ErrorResponse
          {| code := (-32602)%Z; message := "Invalid params";
             data := Some ("Parsing parameter '" ++ key ++ "': " ++ exnText e') |}
          id, []))
  ∧ (∀ parsedArgs e, parseCommandParams command params = Ok parsedArgs →
     runtime_parser (runtime command) parsedArgs = Err e →
     let call := {| invoked := cmd command; arguments := parsedArgs |} in
     handleJsonRpcRequest commands body =
     (ErrorResponse
        (match e with
         | ErrorObj text =>
             if includes "Parsing parameter" text
             then {| code := (-32602)%Z; message := "Invalid params"; data := Some text |}
             else {| code := (-32000)%Z; message := "Server error"; data := Some text |}
         | Raised rendering =>
             {| code := (-32000)%Z; message := "Server error"; data := Some rendering |}
         end) id, [call])).
Proof.
  intros Hvalid Hmethod Hcommand params id.
  assert (isArray body = false) as Harray by by destruct body.
  split.
  - intros e Hparse.
    destruct (parseCommandParams_error _ _ _ (valid_params_shape _ Hvalid) Hparse)
      as (key & spec & value & e' & Hkey & Hfail & ->).
    exists key, spec, value, e'. split; [done |]. split; [done |].
    unfold handleJsonRpcRequest. rewrite Harray, Hvalid, Hmethod, Hcommand. simpl.
    fold params. rewrite Hparse. unfold onExecutionError.
    by rewrite includes_parsingParameter.
  - intros parsedArgs e Hparse Hrun call.
    unfold handleJsonRpcRequest. rewrite Harray, Hvalid, Hmethod, Hcommand. simpl.
    fold params. rewrite Hparse, Hrun. unfold onExecutionError.
    destruct e as [text|rendering]; [| done].
    by destruct (includes "Parsing parameter" text).
Qed.

Lemma keyedBindings_keys (template : Dict.t (ArgSpec V)) source :
  bindingKeys (keyedBindings template source) = Dict.keys template.
Proof.
  unfold bindingKeys, keyedBindings, Dict.keys. rewrite <- !list_fmap_compose.
  by apply list_fmap_ext.
Qed.


Lemma zip_fst_take {A B} (l : list A) (k : list B) :
  (zip l k).*1 = take (length k) l.
Proof.
  revert k. induction l as [|x l IH]; intros [|y k]; simpl; try done.
  by rewrite IH.
Qed.

Lemma arrayBindings_keys (template : Dict.t (ArgSpec V)) values :
  bindingKeys (arrayBindings template values) =
  (take (length values) (Dict.keys (baseArgs template)) ++
   Dict.keys (otherArgs template))%list.
Proof.
  unfold arrayBindings. unfold bindingKeys at 1. rewrite !fmap_app.
  fold (bindingKeys (keyedBindings (otherArgs template) (λ _, JUndefined))).
  rewrite keyedBindings_keys. f_equal.
  rewrite <- !list_fmap_compose. unfold Dict.keys. rewrite <- fmap_take, <- zip_fst_take.
  rewrite <- list_fmap_compose. by apply list_fmap_ext.
Qed.

Lemma baseArgs_otherArgs_keys (template : Dict.t (ArgSpec V)) :
  Dict.wf template →
  NoDup (Dict.keys (baseArgs template) ++ Dict.keys (otherArgs template)).
Proof.
  intros Hwf. apply NoDup_app. repeat split.
  - eapply sublist_NoDup; [exact Hwf |]. apply fmap_sublist, sublist_filter.
  - intros key Hbase Hother.
    apply list_elem_of_fmap in Hbase as ([k1 s1] & -> & Hbase).
    apply list_elem_of_fmap in Hother as ([k2 s2] & Heq & Hother).
    simpl in Heq. subst k2.
    apply list_elem_of_filter in Hbase as [Hb1 Hin1].
    apply list_elem_of_filter in Hother as [Hb2 Hin2]. simpl in *.
    assert (s1 = s2) by exact (DictFacts.wf_unique _ _ _ _ Hwf Hin1 Hin2).
    congruence.
  - eapply sublist_NoDup; [exact Hwf |]. apply fmap_sublist, sublist_filter.
Qed.

Lemma arrayBindings_NoDup (template : Dict.t (ArgSpec V)) values :
  Dict.wf template → NoDup (bindingKeys (arrayBindings template values)).
Proof.
  intros Hwf. rewrite arrayBindings_keys.
  eapply sublist_NoDup; [exact (baseArgs_otherArgs_keys _ Hwf) |].
  apply sublist_app; [apply sublist_take | done].
Qed.

(** C1, on the code. For parameters given as an array, the positional
    parameters that have a value are parsed from these values in declaration
    order and the parameters that are not positional are parsed from the
    absent value; a positional parameter beyond the values is not parsed at
    all and the returned arguments have no entry for it. This is for
    declared names that objects do not inherit. *)
Theorem array_params_skip_unassigned_positionals command values m :
  let template := args (runtime command) in
  Dict.wf template →
  Observing.ownNames (Dict.keys template) →
  parseCommandParams command (JArray values) = Ok m →
  dom m = list_to_set (take (length values) (Dict.keys (baseArgs template)) ++
                       Dict.keys (otherArgs template))
  ∧ (∀ i key spec value,
       baseArgs template !! i = Some (key, spec) → values !! i = Some value →
       ∃ typed, parser spec value = Ok typed ∧ m !! key = Some typed)
  ∧ (∀ key spec, (key, spec) ∈ otherArgs template →
       ∃ typed, parser spec JUndefined = Ok typed ∧ m !! key = Some typed)
  ∧ (∀ i key spec,
       baseArgs template !! i = Some (key, spec) → (length values ≤ i)%nat →
       m !! key = None).
Proof.
  intros template Hwf _ Hparse. rewrite parseCommandParams_array in Hparse by done.
  fold template in Hparse.
  pose proof (arrayBindings_NoDup template values Hwf) as Hnd.
  repeat split.
  - rewrite (parseBindings_dom _ _ _ Hparse), arrayBindings_keys. set_solver.
  - intros i key spec value Hbase Hvalue.
    eapply parseBindings_lookup; [exact Hnd | exact Hparse |].
    unfold arrayBindings. apply elem_of_app. left.
    apply list_elem_of_fmap. exists ((key, spec), value). split; [done |].
    apply list_elem_of_lookup. exists i.
    apply lookup_zip_with_Some. by exists (key, spec), value.
  - intros key spec Hin.
    eapply parseBindings_lookup; [exact Hnd | exact Hparse |].
    unfold arrayBindings. apply elem_of_app. right.
    unfold keyedBindings. apply list_elem_of_fmap. by exists (key, spec).
  - intros i key spec Hbase Hlen.
    rewrite (parseBindings_other _ _ _ key Hparse); [apply lookup_empty |].
    rewrite arrayBindings_keys.
    pose proof (baseArgs_otherArgs_keys template Hwf) as Hall.
    assert (Dict.keys (baseArgs template) !! i = Some key) as Hi.
    { unfold Dict.keys. by rewrite list_lookup_fmap, Hbase. }
    apply NoDup_app in Hall as (Hbases & Hdisjoint & _).
    intros Hin. apply elem_of_app in Hin as [Hin|Hin].
    + apply elem_of_take in Hin as (j & Hj & Hlt).
      pose proof (NoDup_lookup _ _ _ _ Hbases Hi Hj). lia.
    + apply (Hdisjoint key); [| done].
      by apply list_elem_of_lookup_2 in Hi.
Qed.

(** C5, amended. [parseCommandParams] stops at the first parser that fails
    and reports it under the name of its parameter. Without parameters and
    for parameters given as an object, the parsers are called in declaration
    order, each on the absent value or on the value of its key: the failure
    reported is the one of the first declared parameter that fails. For an
    array that has a value for every positional parameter, the positional
    parameters are parsed first, in declaration order, then the other
    parameters, in declaration order: the failure reported is the first one
    in that order. For an object and for an array this is for declared
    names that objects do not inherit. *)
Theorem first_failure_reported command :
  let template := args (runtime command) in
  (∀ params, truthy params = false →
     reportsFirstFailure command params (keyedBindings template (fun _ => JUndefined)))
  ∧ (∀ properties : gmap string JsValue,
     Observing.ownNames (Dict.keys template) →
     reportsFirstFailure command (JObject properties)
       (keyedBindings template (getProp (JObject properties))))
  ∧ (∀ values, Dict.wf template → Observing.ownNames (Dict.keys template) →
     (length (baseArgs template) ≤ length values)%nat →
     reportsFirstFailure command (JArray values)
       (((fun pair => (pair.1.1, pair.1.2, pair.2)) <$> zip (baseArgs template) values) ++
        keyedBindings (otherArgs template) (fun _ => JUndefined))%list
     ∧ (zip (baseArgs template) values).*1 = baseArgs template).
Proof.
  intros template. unfold reportsFirstFailure. split; [| split].
  - intros params Hfalsy key e Hff. rewrite parseCommandParams_absent by done.
    by apply parseBindings_first_failure.
  - intros properties _ key e Hff. rewrite parseCommandParams_named.
    by apply parseBindings_first_failure.
  - intros values Hwf _ Hlen. split; [| by apply fst_zip].
    intros key e Hff. rewrite parseCommandParams_array by done.
    by apply parseBindings_first_failure.
Qed.

End Facts.
End JsonRpcFacts.

(** ** The numeric parser *)

Module ParserFacts.
Import Parsers.

Lemma js_lt_Finite (x y : Q) : js_lt (Finite x) (Finite y) = negb (Qle_bool y x).
Proof. reflexivity. Qed.


End ParserFacts.

(** ** The line adapter *)

Module LineFacts.
Import TcpCliServer Reading.
Section Facts.
Context {V : Type}.
Implicit Types (c : Command V) (template : Dict.t (ArgSpec V))
  (parsed r : gmap string JsValue) (p : gmap string V).

Lemma readKey_insert r key value : readKey (<[key := value]> r) key = value.
Proof. unfold readKey. by rewrite lookup_insert_eq. Qed.

Lemma readKey_insert_ne r key other value :
  key ≠ other → readKey (<[key := value]> r) other = readKey r other.
Proof. intros Hne. unfold readKey. by rewrite lookup_insert_ne. Qed.

Lemma rank_cons entry template j :
  rank (entry :: template) (S j) =
  ((if base entry.2 then 1 else 0) + rank template j)%nat.
Proof.
  unfold rank, baseArgs. simpl. rewrite filter_cons. simpl.
  by destruct (base entry.2).
Qed.

Lemma slotBindings_cons entry template parsed first :
  slotBindings (entry :: template) parsed first =
  (entry.1, entry.2, slotValue (entry :: template) parsed first 0 entry) ::
  slotBindings template parsed (if base entry.2 then S first else first).
Proof.
  unfold slotBindings. rewrite imap_cons. f_equal.
  apply imap_ext. intros j x _. simpl. f_equal.
  unfold slotValue. rewrite rank_cons.
  destruct (base entry.2); simpl; [| done].
  by replace (first + S (rank template j))%nat with (S (first + rank template j)) by lia.
Qed.

(** The binding loop, started in any state that agrees with what minimist
    returned on the array of words and on the keys still to come, parses the
    bindings of the remaining parameters. *)
Lemma forEach_bindStep c template parsed r first p :
  Dict.wf template →
  readKey r "_" = readKey parsed "_" →
  (∀ key, key ∈ Dict.keys template → readKey r key = readKey parsed key) →
  match forEach template (bindStep c)
          {| result := r; index := first; paramsObj := p |} with
  | Ok st => Ok (paramsObj st)
  | Err text => Err text
  end = parseBound c (slotBindings template parsed first) p.
Proof.
  unfold Dict.wf, Dict.keys. revert r first p.
  induction template as [|[key spec] rest IH]; intros r first p Hnd Hwords Hkeys; [done |].
  simpl in Hnd. apply NoDup_cons in Hnd as [Hfresh Hnd].
  rewrite slotBindings_cons. cbn [forEach parseBound fst snd].
  assert (readKey r key = readKey parsed key) as Hkey by (apply Hkeys; by left).
  unfold bindStep, slotValue, rank.
  cbn [take baseArgs filter list_filter length fst snd result index paramsObj].
  rewrite Nat.add_0_r, <- Hkey, <- Hwords.
  destruct (base spec) eqn:Hbase; cbn [andb].
  - destruct (isNullish (readKey r key) &&
              negb (isNullish (getIndex (readKey r "_") first))) eqn:Hcond.
    + rewrite readKey_insert.
      destruct (parser spec _) as [typed|e]; simpl; [| done].
      apply IH; [done | |].
      * rewrite readKey_insert_ne; [done |]. intros ->.
        apply andb_prop in Hcond as [Hnull Hword].
        destruct (readKey r "_"); simpl in *; done.
      * intros k Hk. rewrite readKey_insert_ne; [apply Hkeys; by right |].
        by intros ->.
    + destruct (parser spec _) as [typed|e]; simpl; [| done].
      apply IH; [done | done |]. intros k Hk. apply Hkeys. by right.
  - destruct (parser spec _) as [typed|e]; simpl; [| done].
    apply IH; [done | done |]. intros k Hk. apply Hkeys. by right.
Qed.

Lemma tokenize_empty : tokenize "" = [].
Proof. reflexivity. Qed.

(** C9, amended. A line whose first token is not [help], names no
    registered command and is not a name that objects inherit is answered
    by the text
    [Error: Unknown command, please type 'help' to get a list of all commands!];
    minimist is not run and no command is called. *)
Theorem unknown_command_answer
    (minimist : list string → list string → Result Exn (gmap string JsValue))
    (JSON_stringify String_of : JsValue → string)
    (commands : Dict.t (Command V)) (line first : string) (others : list string) :
  tokenize line = first :: others →
  first ≠ "help" →
  Dict.get commands first = None →
  first ∉ Observing.inheritedNames →
  parseLine minimist JSON_stringify String_of commands line =
  (Resolved "Error: Unknown command, please type 'help' to get a list of all commands!", []).
Proof.
  intros Htokens Hhelp Hunknown _. unfold parseLine.
  destruct (String.eqb line "") eqn:Hline.
  - apply String.eqb_eq in Hline. subst line. by rewrite tokenize_empty in Htokens.
  - rewrite Htokens.
    assert (String.eqb first "help" = false) as -> by by apply String.eqb_neq.
    by rewrite Hunknown.
Qed.

Lemma parseLine_dispatches minimist JSON_stringify String_of
    (commands : Dict.t (Command V)) line c parsed :
  dispatches minimist commands line c parsed →
  parseLine minimist JSON_stringify String_of commands line =
  lineOutcome JSON_stringify String_of c
    match forEach (args (runtime c)) (bindStep c)
            {| result := parsed; index := 1; paramsObj := ∅ |} with
    | Ok st => Ok (paramsObj st)
    | Err text => Err text
    end.
Proof.
  intros (first & others & Htokens & Hhelp & Hfound & Hminimist). unfold parseLine.
  destruct (String.eqb line "") eqn:Hline.
  - apply String.eqb_eq in Hline. subst line. by rewrite tokenize_empty in Htokens.
  - rewrite Htokens.
    assert (String.eqb first "help" = false) as -> by by apply String.eqb_neq.
    rewrite Hfound, Hminimist.
    destruct (forEach _ _ _) as [st|text]; simpl; [| done].
    by destruct (runtime_parser _ _).
Qed.

(** C2, amended. On a line that names a registered command, [parseLine]
    gives every parameter the value of its flag; a positional parameter
    without a flag takes the word at its own place: the first positional
    parameter the word after the command name, the second the next word,
    and so on, a parameter bound by a flag still counting for one place, so
    that the word at the place of a flagged parameter is not used. In
    particular the line of the specification, for a command [add] with a
    positional parameter [a] and a named parameter [b], calls the command
    with [a] parsed from 5 and [b] parsed from 10. *)
Theorem line_binding_by_place :
  (∀ minimist JSON_stringify String_of (commands : Dict.t (Command V)) line c parsed,
     dispatches minimist commands line c parsed →
     Dict.wf (args (runtime c)) →
     parseLine minimist JSON_stringify String_of commands line =
     lineOutcome JSON_stringify String_of c
       (parseBound c (slotBindings (args (runtime c)) parsed 1) ∅))
  ∧ (∀ minimist JSON_stringify String_of (commands : Dict.t (Command V)) c
       (specA specB : ArgSpec V) (typedA typedB : V),
     Dict.get commands "add" = Some c →
     args (runtime c) = [("a", specA); ("b", specB)] →
     base specA = true → base specB = false →
     minimist ["add"; "5"; "--b=10"] ["_"; "a"; "b"] =
       Ok (<["b" := JString "10"]> {[ "_" := JArray [JString "add"; JString "5"] ]}) →
     parser specA (JString "5") = Ok typedA →
     parser specB (JString "10") = Ok typedB →
     (parseLine minimist JSON_stringify String_of commands Samples.addLine).2 =
     [{| invoked := cmd c;
         arguments := <["b" := typedB]> (<["a" := typedA]> ∅) |}]).
Proof.
  split.
  - intros minimist JSON_stringify String_of commands line c parsed Hline Hwf.
    rewrite (parseLine_dispatches _ _ _ _ _ _ _ Hline). f_equal.
    by apply forEach_bindStep.
  - intros minimist JSON_stringify String_of commands c specA specB typedA typedB
      Hget Hargs HbaseA HbaseB Hminimist HparseA HparseB.
    assert (dispatches minimist commands Samples.addLine c
              (<["b" := JString "10"]> {[ "_" := JArray [JString "add"; JString "5"] ]}))
      as Hline.
    { exists "add", ["5"; "--b=10"]. split; [reflexivity |]. split; [done |].
      split; [done |]. by rewrite Hargs. }
    rewrite (parseLine_dispatches _ _ _ _ _ _ _ Hline). rewrite Hargs.
    set (parsed := <["b" := JString "10"]> _).
    assert (readKey parsed "a" = JUndefined) as Ha by reflexivity.
    assert (readKey parsed "b" = JString "10") as Hb by reflexivity.
    assert (getIndex (readKey parsed "_") 1 = JString "5") as Hword by reflexivity.
    cbn [forEach bind]. unfold bindStep at 1.
    rewrite HbaseA. cbn [result index paramsObj]. rewrite Ha, Hword.
    cbn [isNullish andb negb]. rewrite readKey_insert, HparseA.
    cbn [forEach bind]. unfold bindStep. rewrite HbaseB. cbn [result index paramsObj].
    rewrite readKey_insert_ne by done. rewrite Hb, HparseB.
    cbn [bind paramsObj]. done.
Qed.

End Facts.
End LineFacts.

(** ** The properties on the sample commands *)

Module Instances.
Import Parsers JsonRpcServer TcpCliServer Reading Samples.

Lemma pair_wf : Dict.wf (args (runtime pair)).
Proof. apply (bool_decide_unpack _). vm_compute. reflexivity. Defined.

Lemma tag_wf : Dict.wf (args (runtime tag)).
Proof. apply (bool_decide_unpack _). vm_compute. reflexivity. Defined.

Lemma pair_own : Observing.ownNames (Dict.keys (args (runtime pair))).
Proof. apply (bool_decide_unpack _). vm_compute. reflexivity. Defined.

Lemma tag_own : Observing.ownNames (Dict.keys (args (runtime tag))).
Proof. apply (bool_decide_unpack _). vm_compute. reflexivity. Defined.

Lemma add_own : Observing.ownNames (Dict.keys (args (runtime add))).
Proof. apply (bool_decide_unpack _). vm_compute. reflexivity. Defined.

Lemma add_not_inherited : "add" ∉ Observing.inheritedNames.
Proof. apply (bool_decide_unpack _). vm_compute. reflexivity. Defined.

(** C1: the request [pair] with the array of one value succeeds and the
    arguments have no entry for [b], a required positional parameter, while
    the same request without parameters is refused. *)
Lemma array_params_skip_unassigned_positionals_witness :
  parseCommandParams pair (JArray [JString "5"]) = Ok {[ "a" := JString "5" ]}
  ∧ ({[ "a" := JString "5" ]} : gmap string JsValue) !! "b" = None
  ∧ parseCommandParams pair JUndefined =
    Err (ErrorObj "Parsing parameter 'a': Data is null").
Proof.
  assert (parseCommandParams pair (JArray [JString "5"]) = Ok {[ "a" := JString "5" ]})
    as Hparse by (vm_compute; reflexivity).
  split; [exact Hparse |]. split; [| vm_compute; reflexivity].
  pose proof (JsonRpcFacts.array_params_skip_unassigned_positionals
                pair [JString "5"] _ pair_wf pair_own Hparse) as (_ & _ & _ & Hskipped).
  apply (Hskipped 1%nat "b" {| base := true; arg_description := "second";
                               parser := required |}).
  - reflexivity.
  - simpl. lia.
Defined.

(** The words [pair --a=1 2] as the model of minimist reads them. *)
Lemma pairFlagged_parsed :
  Minimist.parse ["pair"; "--a=1"; "2"] ["_"; "a"; "b"] = Some pairFlagged.
Proof. vm_compute. reflexivity. Qed.

Lemma pairLine_dispatches :
  dispatches Minimist.minimist [("pair", pair)] pairLine pair pairFlagged.
Proof.
  exists "pair", ["--a=1"; "2"]. split; [reflexivity |]. split; [discriminate |].
  split; [reflexivity |]. vm_compute. reflexivity.
Defined.

(** C2: the general form on the line [pair --a=1 2], where the word 2 is at
    the place of the flagged [a] and is not used, and the line of the
    specification with the long options of minimist. *)
Lemma line_binding_by_place_witness :
  parseLine Minimist.minimist render render [("pair", pair)] pairLine =
  lineOutcome render render pair
    (parseBound pair (slotBindings (args (runtime pair)) pairFlagged 1) ∅)
  ∧ (parseLine Minimist.minimist render render [("add", add)] addLine).2 =
    [{| invoked := "add";
        arguments := <["b" := JString "10"]> (<["a" := JString "5"]> ∅) |}].
Proof.
  split.
  - apply (proj1 LineFacts.line_binding_by_place Minimist.minimist render render
             [("pair", pair)] pairLine pair pairFlagged pairLine_dispatches pair_wf).
  - apply (proj2 LineFacts.line_binding_by_place Minimist.minimist render render
             [("add", add)] add
             {| base := true; arg_description := "first"; parser := required |}
             {| base := false; arg_description := "second"; parser := required |}
             (JString "5") (JString "10")); reflexivity.
Defined.

(** C2 as stated fails: on the line [pair --a=1 2] the word 2 is left over
    and [b] is a positional parameter that no flag binds, yet [b] is parsed
    from the absent value and the line is refused. *)
Lemma line_binding_counterexample :
  ¬ bindsAsSpecified Minimist.minimist render render [("pair", pair)] pairLine.
Proof.
  intros H. specialize (H pair pairFlagged pairLine_dispatches).
  vm_compute in H. discriminate H.
Qed.

(** C3: the execution of [store] fails with a message that contains
    [Parsing parameter], and the answer is INVALID_PARAMS. *)
Lemma execution_and_parsing_failures_witness :
  handleJsonRpcRequest [("store", store)] (request "store" (JArray []) (JNumber (Finite 1))) =
  (ErrorResponse {| code := (-32602)%Z; message := "Invalid params";
                    data := Some "Parsing parameter table failed" |}
                 (JNumber (Finite 1)),
   [{| invoked := "store"; arguments := ∅ |}]).
Proof.
  apply (proj2 (JsonRpcFacts.execution_and_parsing_failures
                  [("store", store)]
                  (request "store" (JArray []) (JNumber (Finite 1)))
                  "store" store eq_refl eq_refl eq_refl)
           ∅ (ErrorObj "Parsing parameter table failed")); reflexivity.
Defined.

(** C3 at the failing input: the property of the specification, that a
    failure of the execution is answered by SERVER_ERROR, fails on that
    request. *)
Lemma execution_failure_counterexample :
  ¬ executionFailureIsServerError [("store", store)]
      (request "store" (JArray []) (JNumber (Finite 1))).
Proof.
  intros H.
  specialize (H "store" store ∅ (ErrorObj "Parsing parameter table failed")
                eq_refl eq_refl eq_refl eq_refl eq_refl).
  vm_compute in H. discriminate H.
Qed.

(** C4: a request whose id is the boolean [true] and whose envelope is
    invalid for that reason is answered with the id [true]. *)
Lemma invalid_request_echoes_any_id_witness :
  isArray booleanId = false
  ∧ isValidJsonRpcRequest booleanId = false
  ∧ handleJsonRpcRequest ([] : Dict.t (Command JsValue)) booleanId =
    (ErrorResponse {| code := (-32600)%Z; message := "Invalid Request"; data := None |}
                   (JBool true), []).
Proof.
  split; [reflexivity |]. split; [reflexivity |].
  exact (JsonRpcFacts.invalid_request_echoes_any_id [] booleanId eq_refl eq_refl).
Defined.

(** C5: without parameters both parsers of [pair] fail and [a], declared
    first, is reported; with the array of one value for [tag], the
    positional parameter [a] is parsed first and reported. *)
Lemma first_failure_reported_witness :
  parseCommandParams pair JUndefined =
    Err (ErrorObj (parsingParameter "a" (ErrorObj "Data is null")))
  ∧ parseCommandParams tag (JArray [JString "5"]) =
    Err (ErrorObj (parsingParameter "a"
                     (ErrorObj "Invalid string length, min length: 3"))).
Proof.
  split.
  - apply (proj1 (JsonRpcFacts.first_failure_reported pair) JUndefined eq_refl).
    eexists [], _, _, _. split; [reflexivity | split; [constructor | reflexivity]].
  - refine (proj1 (proj2 (proj2 (JsonRpcFacts.first_failure_reported tag))
                     [JString "5"] tag_wf tag_own _) _ _ _).
    + simpl. lia.
    + eexists [], _, _, _. split; [reflexivity | split; [constructor | reflexivity]].
Defined.

(** C5 as stated fails: in [tag] the named parameter [x] is declared first
    and fails on the absent value, but the array branch parses the
    positional parameter [a] before it and reports [a]. *)
Lemma first_declared_failure_counterexample :
  ¬ reportsFirstFailure tag (JArray [JString "5"])
      (declaredBindings (args (runtime tag)) [JString "5"]).
Proof.
  intros H. specialize (H "x" (ErrorObj "Data is null")).
  assert (firstFailure (declaredBindings (args (runtime tag)) [JString "5"])
            "x" (ErrorObj "Data is null")) as Hfirst.
  { eexists [], _, _, _. split; [reflexivity | split; [constructor | reflexivity]]. }
  specialize (H Hfirst). vm_compute in H. discriminate H.
Qed.



(** C9: a line that names no command. *)
Lemma unknown_command_answer_witness :
  parseLine Minimist.minimist render render [("add", add)] "frobnicate now" =
  (Resolved "Error: Unknown command, please type 'help' to get a list of all commands!", []).
Proof.
  apply (LineFacts.unknown_command_answer Minimist.minimist render render
           [("add", add)] "frobnicate now" "frobnicate" ["now"]).
  - reflexivity.
  - discriminate.
  - reflexivity.
  - apply (bool_decide_unpack _). vm_compute. reflexivity.
Defined.

(** C9 as stated fails: the answer starts with [Error: ]. *)
Lemma unknown_command_counterexample :
  ¬ answersUnknownCommand Minimist.minimist render render [("add", add)] "frobnicate now".
Proof.
  intros H. specialize (H "frobnicate" ["now"] eq_refl).
  assert ("frobnicate" ≠ "help") as Hne by discriminate.
  specialize (H Hne eq_refl). vm_compute in H. discriminate H.
Qed.


End Instances.

(** * Further properties *)

(** ** The JSON-RPC adapter, beyond the claims *)

Module JsonRpcMore.
Import JsonRpcErrorCodes JsonRpcServer Reading MaterializerFacts Observing.
Section Facts.
Context {V : Type}.
Implicit Types (commands : Dict.t (Command V)) (command : Command V)
  (body params : JsValue).

Lemma valid_not_array body : isValidJsonRpcRequest body = true → isArray body = false.
Proof. by destruct body. Qed.

Lemma parseBindings_ok_all (bindings : list (@Binding V)) paramsObj m :
  parseBindings bindings paramsObj = Ok m →
  Forall (fun b : Binding => isOk (parser b.1.2 b.2) = true) bindings.
Proof.
  revert paramsObj.
  induction bindings as [|[[key spec] value] rest IH]; intros paramsObj; simpl.
  - intros _. constructor.
  - destruct (parser spec value) as [typed|] eqn:Hp; [| done].
    intros H. constructor; [simpl; by rewrite Hp | by eapply IH].
Qed.

(** X1. A valid request whose method names no registered command, and is
    not a name that objects inherit, is answered by the error -32601 with
    the message [Method not found] and the id of the request; no command is
    called. *)
Theorem unknown_method_answer commands body name :
  isValidJsonRpcRequest body = true →
  getProp body "method" = JString name →
  Dict.get commands name = None →
  name ∉ inheritedNames →
  handleJsonRpcRequest commands body =
  (ErrorResponse {| code := (-32601)%Z; message := "Method not found"; data := None |}
                 (getProp body "id"), []).
Proof.
  intros Hvalid Hmethod Hnone _. unfold handleJsonRpcRequest.
  by rewrite (valid_not_array _ Hvalid), Hvalid, Hmethod, Hnone.
Qed.

(** X2. A valid request for a registered method whose parameters
    materialize and whose execution resolves is answered by a success that
    carries the value the command returned, untouched, and the id of the
    request; the command was called once, on the materialized arguments. *)
Theorem successful_call_answer commands body name command parsedArgs value :
  isValidJsonRpcRequest body = true →
  getProp body "method" = JString name →
  Dict.get commands name = Some command →
  parseCommandParams command (getProp body "params") = Ok parsedArgs →
  runtime_parser (runtime command) parsedArgs = Ok value →
  handleJsonRpcRequest commands body =
  (SuccessResponse value (getProp body "id"),
   [{| invoked := cmd command; arguments := parsedArgs |}]).
Proof.
  intros Hvalid Hmethod Hfound Hparse Hrun. unfold handleJsonRpcRequest.
  rewrite (valid_not_array _ Hvalid), Hvalid, Hmethod, Hfound. simpl.
  by rewrite Hparse, Hrun.
Qed.

(** X3. Whatever the body, [handleJsonRpcRequest] calls at most one command,
    and calls one only when the request is valid, its method is registered
    and its parameters materialized: the call is then the call of that
    command on the materialized arguments. *)
Theorem calls_only_materialized_requests commands body :
  (handleJsonRpcRequest commands body).2 = [] ∨
  ∃ name command parsedArgs,
    isValidJsonRpcRequest body = true ∧
    getProp body "method" = JString name ∧
    Dict.get commands name = Some command ∧
    parseCommandParams command (getProp body "params") = Ok parsedArgs ∧
    (handleJsonRpcRequest commands body).2 =
    [{| invoked := cmd command; arguments := parsedArgs |}].
Proof.
  unfold handleJsonRpcRequest.
  destruct (isArray body); [by left |].
  destruct (isValidJsonRpcRequest body) eqn:Hvalid; [| by left]. simpl.
  destruct (getProp body "method") as [| | | |name| |] eqn:Hmethod; try by left.
  destruct (Dict.get commands name) as [command|] eqn:Hfound; [| by left].
  destruct (parseCommandParams command (getProp body "params"))
    as [parsedArgs|e] eqn:Hparse; [| by left].
  right. exists name, command, parsedArgs. do 4 (split; [done |]).
  by destruct (runtime_parser (runtime command) parsedArgs).
Qed.

(** X4. The answer to a valid request carries the id of the request,
    whatever the outcome: unknown method, parameters refused, execution
    failed or succeeded. *)
Theorem valid_request_id_echoed commands body :
  isValidJsonRpcRequest body = true →
  responseId (handleJsonRpcRequest commands body).1 = getProp body "id".
Proof.
  intros Hvalid. unfold handleJsonRpcRequest.
  rewrite (valid_not_array _ Hvalid), Hvalid. simpl.
  destruct (match getProp body "method" with JString name => _ | _ => None end)
    as [command|]; [| done].
  assert (∀ e id, responseId (onExecutionError e id) = id) as Hcatch.
  { intros [text|rendering] id; simpl; [| done].
    by destruct (includes "Parsing parameter" text). }
  destruct (parseCommandParams command _) as [parsedArgs|e]; simpl; [| apply Hcatch].
  destruct (runtime_parser _ _); simpl; [done | apply Hcatch].
Qed.

(** X5. Whatever the body and the command table, the answer is a success
    or an error whose code is -32600, -32601, -32602 or -32000: the handler
    never answers with the codes of a parse error or of an internal error. *)
Theorem answer_codes commands body :
  responseCode (handleJsonRpcRequest commands body).1 ∈
  [None; Some (-32600)%Z; Some (-32601)%Z; Some (-32602)%Z; Some (-32000)%Z].
Proof.
  assert (∀ e id, responseCode (onExecutionError e id) ∈
            [None; Some (-32600)%Z; Some (-32601)%Z; Some (-32602)%Z; Some (-32000)%Z])
    as Hcatch.
  { intros [text|rendering] id; simpl.
    - destruct (includes "Parsing parameter" text); simpl; set_solver.
    - set_solver. }
  unfold handleJsonRpcRequest.
  destruct (isArray body); [simpl; set_solver |].
  destruct (isValidJsonRpcRequest body); simpl; [| set_solver].
  destruct (match getProp body "method" with JString name => _ | _ => None end)
    as [command|]; [| simpl; set_solver].
  destruct (parseCommandParams command _) as [parsedArgs|e]; simpl; [| apply Hcatch].
  destruct (runtime_parser _ _); simpl; [set_solver | apply Hcatch].
Qed.

Lemma zip_app_longer {A B} (l : list A) (k extra : list B) :
  (length l ≤ length k)%nat → zip l (k ++ extra) = zip l k.
Proof.
  revert k. induction l as [|x l IH]; intros [|y k] Hlen; simpl in *; try done; try lia.
  f_equal. apply IH. lia.
Qed.

(** X6. Values of an array beyond the number of positional parameters are
    dropped without an error: the result is the one of the array without
    them. *)
Theorem extra_positional_values_discarded command (values extra : list JsValue) :
  (length (baseArgs (args (runtime command))) ≤ length values)%nat →
  parseCommandParams command (JArray (values ++ extra)) =
  parseCommandParams command (JArray values).
Proof.
  intros Hlen. unfold parseCommandParams. simpl.
  fold (baseArgs (args (runtime command))). by rewrite zip_app_longer.
Qed.

(** X7. [parseCommandParams] treats every falsy value of [params] ([null],
    [false], 0, NaN, the empty string) as absent parameters, and refuses
    every other value that is neither an array nor an object with the error
    [Parameters must be an array or object], whatever the command. Neither
    happens to a request: the parameters of a valid request are absent, an
    array or an object. *)
Theorem params_neither_array_nor_object command params :
  (truthy params = false →
   parseCommandParams command params = parseCommandParams command JUndefined)
  ∧ (truthy params = true → isArray params = false → typeofObject params = false →
     parseCommandParams command params =
     Err (ErrorObj "Parameters must be an array or object"))
  ∧ (∀ body, isValidJsonRpcRequest body = true →
       getProp body "params" = JUndefined
       ∨ isArray (getProp body "params") = true
       ∨ ∃ properties, getProp body "params" = JObject properties).
Proof.
  split; [| split].
  - intros Hfalsy. by rewrite !parseCommandParams_absent.
  - intros Htruthy Harray Hobject. unfold parseCommandParams. rewrite Htruthy. simpl.
    by destruct params.
  - intros body Hvalid. unfold isValidJsonRpcRequest in Hvalid.
    apply andb_prop in Hvalid as [Hvalid _]. apply andb_prop in Hvalid as [_ Hparams].
    destruct (getProp body "params"); simpl in Hparams; try done; eauto.
Qed.

Lemma keyedBindings_all_ok (template : Dict.t (ArgSpec V)) (source : string → JsValue) :
  Forall (fun b : Binding => isOk (parser b.1.2 b.2) = true)
         (keyedBindings template source) ↔
  ∀ key spec, (key, spec) ∈ template → isOk (parser spec (source key)) = true.
Proof.
  unfold keyedBindings. rewrite Forall_fmap, Forall_forall. simpl. split.
  - intros H key spec Hin. apply (H (key, spec) Hin).
  - intros H [key spec] Hin. by apply H.
Qed.

(** X8. A request without parameters materializes exactly when the parser
    of every declared parameter accepts the absent value, that is when
    every parameter is optional; the arguments then have exactly the
    declared names, each with what its parser returned for the absent
    value. *)
Theorem absent_params_need_optional_parameters command :
  let template := args (runtime command) in
  ((∃ m, parseCommandParams command JUndefined = Ok m) ↔
   (∀ key spec, (key, spec) ∈ template → isOk (parser spec JUndefined) = true))
  ∧ (∀ m, parseCommandParams command JUndefined = Ok m →
     dom m = list_to_set (Dict.keys template) ∧
     (Dict.wf template → ∀ key spec, (key, spec) ∈ template →
        ∃ typed, parser spec JUndefined = Ok typed ∧ m !! key = Some typed)).
Proof.
  intros template. rewrite parseCommandParams_absent by done. fold template. split.
  - rewrite <- (keyedBindings_all_ok template (fun _ => JUndefined)). split.
    + intros [m Hparse]. by eapply parseBindings_ok_all.
    + apply parseBindings_all_ok.
  - intros m Hparse. split.
    + rewrite (parseBindings_dom _ _ _ Hparse), JsonRpcFacts.keyedBindings_keys. set_solver.
    + intros Hwf key spec Hin.
      eapply parseBindings_lookup; [| exact Hparse |].
      * by rewrite JsonRpcFacts.keyedBindings_keys.
      * unfold keyedBindings. apply list_elem_of_fmap. by exists (key, spec).
Qed.

Lemma arrayBindings_bindingKeys (template : Dict.t (ArgSpec V)) values :
  (length (baseArgs template) ≤ length values)%nat →
  list_to_set (bindingKeys (arrayBindings template values)) =@{gset string}
  list_to_set (Dict.keys template).
Proof.
  intros Hlen. unfold arrayBindings, bindingKeys. rewrite !fmap_app.
  fold (bindingKeys (keyedBindings (otherArgs template) (λ _, JUndefined))).
  rewrite JsonRpcFacts.keyedBindings_keys, <- !list_fmap_compose.
  assert (((fst ∘ fst) ∘ (λ pair : string * ArgSpec V * JsValue,
             (pair.1.1, pair.1.2, pair.2))) <$> zip (baseArgs template) values
          = Dict.keys (baseArgs template)) as ->.
  { unfold Dict.keys. rewrite <- (fst_zip (baseArgs template) values) at 2 by done.
    rewrite <- list_fmap_compose. by apply list_fmap_ext. }
  apply set_eq. intros key.
  rewrite list_to_set_app_L, elem_of_union, !elem_of_list_to_set.
  unfold Dict.keys, baseArgs, otherArgs. rewrite !list_elem_of_fmap. split.
  - intros [([k s] & -> & Hin)|([k s] & -> & Hin)];
      apply list_elem_of_filter in Hin as [_ Hin]; by exists (k, s).
  - intros ([k s] & -> & Hin). destruct (base s) eqn:Hbase.
    + left. exists (k, s). split; [done |]. by apply list_elem_of_filter.
    + right. exists (k, s). split; [done |]. by apply list_elem_of_filter.
Qed.

(** X9. When an array has a value for every positional parameter and the
    materialization succeeds, the arguments have exactly the declared
    names: nothing is left out. This is for declared names that objects do
    not inherit: a parameter that is not positional and has such a name,
    [toString] say, is skipped by the test [key in paramsObj]. *)
Theorem full_array_covers_every_parameter command values m :
  let template := args (runtime command) in
  Dict.wf template →
  ownNames (Dict.keys template) →
  (length (baseArgs template) ≤ length values)%nat →
  parseCommandParams command (JArray values) = Ok m →
  dom m = list_to_set (Dict.keys template).
Proof.
  intros template Hwf _ Hlen Hparse.
  rewrite parseCommandParams_array in Hparse by done.
  rewrite (parseBindings_dom _ _ _ Hparse), arrayBindings_bindingKeys by done.
  set_solver.
Qed.

End Facts.
End JsonRpcMore.

(** ** Strings *)

Module StringFacts.

Lemma app_cons (c : ascii) (s t : string) : String c s ++ t = String c (s ++ t).
Proof. reflexivity. Qed.

Lemma app_nil_l (s : string) : "" ++ s = s.
Proof. reflexivity. Qed.

Lemma app_nil_r (s : string) : s ++ "" = s.
Proof. induction s as [|c s IH]; [done | by rewrite app_cons, IH]. Qed.

Lemma app_assoc (s t u : string) : (s ++ t) ++ u = s ++ t ++ u.
Proof. induction s as [|c s IH]; [done | by rewrite !app_cons, IH]. Qed.

Lemma app_length (s t : string) :
  String.length (s ++ t) = (String.length s + String.length t)%nat.
Proof. induction s as [|c s IH]; [done | rewrite app_cons; simpl; by rewrite IH]. Qed.

End StringFacts.

(** ** The line adapter, beyond the claims *)

Module LineMore.
Import TcpCliServer Reading Observing LineFacts.

Lemma whiteSpace_not_quote c : Parsers.isWhiteSpace c = true → (c =? quote)%char = false.
Proof.
  intros Hws. destruct (c =? quote)%char eqn:Hq; [| done].
  apply Ascii.eqb_eq in Hq. subst c. discriminate Hws.
Qed.

Lemma scan_white line :
  allChars Parsers.isWhiteSpace line = true → scan line Between "" = [].
Proof.
  induction line as [|c rest IH]; simpl; [done |].
  intros [Hc Hrest]%andb_prop. rewrite (whiteSpace_not_quote _ Hc), Hc. simpl. auto.
Qed.

Lemma stripQuotes_no_quote s :
  allChars (fun c => negb (isQuote c)) (stripQuotes s) = true.
Proof.
  induction s as [|c rest IH]; simpl; [done |].
  unfold isQuote in *. destruct (c =? quote)%char eqn:Hq; simpl; [done |].
  by rewrite Hq.
Qed.

Lemma stripQuotes_id s :
  allChars (fun c => negb (isQuote c)) s = true → stripQuotes s = s.
Proof.
  induction s as [|c rest IH]; simpl; [done |].
  unfold isQuote in *. intros [Hc Hrest]%andb_prop.
  apply negb_true_iff in Hc. rewrite Hc. by rewrite IH.
Qed.

Lemma stripQuotes_app s t : stripQuotes (s ++ t) = stripQuotes s ++ stripQuotes t.
Proof.
  induction s as [|c rest IH]; simpl; [done |].
  destruct (c =? quote)%char; simpl; by rewrite IH.
Qed.

Lemma closesQuoted_span s rest seen :
  allChars (fun c => negb (isQuote c)) s = true →
  closesQuoted (s ++ String quote rest) seen =
  match s with EmptyString => seen | _ => true end.
Proof.
  revert seen. induction s as [|c s IH]; intros seen; simpl.
  - done.
  - unfold isQuote in *. intros [Hc Hs]%andb_prop. apply negb_true_iff in Hc.
    rewrite Hc, (IH true Hs). by destruct s.
Qed.

Lemma snoc_app current c s : snoc current c ++ s = current ++ String c s.
Proof. unfold snoc. by rewrite StringFacts.app_assoc. Qed.

Lemma scan_quoted_span s rest current :
  allChars (fun c => negb (isQuote c)) s = true →
  scan (s ++ String quote rest) InQuoted current =
  (current ++ s ++ String quote "") :: scan rest Between "".
Proof.
  revert current. induction s as [|c s IH]; intros current; simpl.
  - done.
  - unfold isQuote in *. intros [Hc Hs]%andb_prop. apply negb_true_iff in Hc.
    rewrite Hc, (IH _ Hs). by rewrite snoc_app.
Qed.

(** X10. No token holds a quote: every quote of the line is removed, also
    one that does not close a quoted span. *)
Theorem tokens_hold_no_quote (line token : string) :
  token ∈ tokenize line → allChars (fun c => negb (isQuote c)) token = true.
Proof.
  unfold tokenize. intros (element & -> & _)%list_elem_of_fmap.
  apply stripQuotes_no_quote.
Qed.

(** X11. A line that starts with a quoted span of one or more characters
    other than a quote gives that span, white space included and without
    its quotes, as one token, followed by the tokens of what comes after
    the closing quote. *)
Theorem quoted_span_is_one_token (s rest : string) :
  s ≠ "" →
  allChars (fun c => negb (isQuote c)) s = true →
  tokenize (String quote (s ++ String quote rest)) = s :: tokenize rest.
Proof.
  intros Hne Hs. unfold tokenize.
  assert (scan (String quote (s ++ String quote rest)) Between "" =
          scan (s ++ String quote rest) InQuoted (String quote "")) as ->.
  { simpl. rewrite (closesQuoted_span _ _ _ Hs). by destruct s. }
  rewrite (scan_quoted_span _ _ _ Hs), fmap_cons. f_equal.
  rewrite StringFacts.app_cons, StringFacts.app_nil_l. simpl.
  rewrite stripQuotes_app, (stripQuotes_id _ Hs). simpl.
  by rewrite StringFacts.app_nil_r.
Qed.

Lemma scan_plain_run s current :
  allChars plainChar s = true → scan s InRun current = [current ++ s].
Proof.
  revert current. induction s as [|c s IH]; intros current; simpl.
  - intros _. by rewrite StringFacts.app_nil_r.
  - unfold plainChar at 1. intros [[_ Hc]%andb_prop Hs]%andb_prop.
    apply negb_true_iff in Hc. rewrite Hc, (IH _ Hs). by rewrite snoc_app.
Qed.

Lemma scan_split a c b mode current :
  mode ≠ InQuoted →
  allChars (fun c => negb (isQuote c)) a = true →
  Parsers.isWhiteSpace c = true →
  scan (a ++ String c b) mode current =
  (scan a mode current ++ scan b Between "")%list.
Proof.
  intros Hmode Ha Hc. revert mode current Hmode.
  induction a as [|x a IH]; intros mode current Hmode.
  - rewrite StringFacts.app_nil_l. cbn [scan]. destruct mode; [| done |].
    + by rewrite (whiteSpace_not_quote _ Hc), Hc.
    + by rewrite Hc.
  - cbn [allChars] in Ha. apply andb_prop in Ha as [Hx Ha]. unfold isQuote in Hx.
    apply negb_true_iff in Hx. rewrite StringFacts.app_cons. cbn [scan].
    destruct mode; [| done |].
    + rewrite Hx. cbn [andb]. destruct (Parsers.isWhiteSpace x); by apply IH.
    + destruct (Parsers.isWhiteSpace x); [| by apply IH].
      rewrite <- app_comm_cons. f_equal. by apply IH.
Qed.

(** X12. A line without quotes is cut at its white space: a run of
    characters that are neither white space nor quotes is one token, itself,
    and the tokens of a line are those of what precedes a white space
    character followed by those of what follows it. *)
Theorem plain_line_split_at_white_space :
  (∀ word, word ≠ "" → allChars plainChar word = true → tokenize word = [word])
  ∧ (∀ before c after,
       allChars (fun c => negb (isQuote c)) before = true →
       Parsers.isWhiteSpace c = true →
       tokenize (before ++ String c after) = (tokenize before ++ tokenize after)%list).
Proof.
  split.
  - intros [|x word] Hne Hplain; [done |]. unfold tokenize.
    pose proof Hplain as Hall. cbn [allChars] in Hplain.
    apply andb_prop in Hplain as [Hx Hword]. unfold plainChar, isQuote in Hx.
    apply andb_prop in Hx as [Hq Hw]. apply negb_true_iff in Hq, Hw.
    cbn [scan]. rewrite Hq, Hw. cbn [andb].
    rewrite (scan_plain_run _ _ Hword). cbn [fmap list_fmap].
    rewrite StringFacts.app_cons, StringFacts.app_nil_l. f_equal.
    apply stripQuotes_id. clear -Hall. induction (String x word) as [|y rest IH]; [done |].
    cbn [allChars] in *. apply andb_prop in Hall as [Hy Hrest].
    unfold plainChar in Hy. apply andb_prop in Hy as [-> _]. by apply IH.
  - intros before c after Hbefore Hc. unfold tokenize.
    by rewrite scan_split, fmap_app.
Qed.

Section Facts.
Context {V : Type}.
Variable minimist : list string → list string → Result Exn (gmap string JsValue).
Variables JSON_stringify String_of : JsValue → string.
Implicit Types (commands : Dict.t (Command V)) (c : Command V)
  (parsed : gmap string JsValue).

(** X13. A line that is not empty and holds white space only makes
    [parseLine] throw: the regular expression has no match and the loop
    over the matches is called on [null]. Nothing is answered and no
    command is called. *)
Theorem blank_line_throws commands (line : string) :
  line ≠ "" →
  allChars Parsers.isWhiteSpace line = true →
  ∃ e, parseLine minimist JSON_stringify String_of commands line = (Thrown e, []).
Proof.
  intros Hne Hwhite. unfold parseLine, tokenize.
  assert (String.eqb line "" = false) as -> by by apply String.eqb_neq.
  rewrite (scan_white _ Hwhite). by eexists.
Qed.

(** X14. A line whose first token is [help] is answered by a help text and
    calls no command, whatever the command table holds: the help of the
    command the second token names when there is one, the list of the
    commands otherwise (the second token not being a name that objects
    inherit). A command registered under the name [help] cannot be run from
    a line. *)
Theorem help_line_answer commands (line : string) (others : list string) :
  tokenize line = "help" :: others →
  (∀ second, head others = Some second → second ∉ inheritedNames) →
  parseLine minimist JSON_stringify String_of commands line =
  (Resolved
     match head others ≫= Dict.get commands with
     | Some c => getCommandHelp c
     | None => getHelp commands
     end, []).
Proof.
  intros Htokens _. unfold parseLine.
  destruct (String.eqb line "") eqn:Hline.
  - apply String.eqb_eq in Hline. subst line. by rewrite tokenize_empty in Htokens.
  - rewrite Htokens. simpl. destruct others as [|second rest]; simpl; [done |].
    by destruct (Dict.get commands second).
Qed.

Lemma parseBound_app c (bindings1 bindings2 : list (@Binding V)) p :
  parseBound c (bindings1 ++ bindings2) p =
  match parseBound c bindings1 p with
  | Ok p' => parseBound c bindings2 p'
  | Err text => Err text
  end.
Proof.
  revert p. induction bindings1 as [|[[key spec] value] rest IH]; intros p; simpl; [done |].
  destruct (parser spec value); [apply IH | done].
Qed.

Lemma parseBound_all_ok c (bindings : list (@Binding V)) p :
  Forall (fun b : Binding => isOk (parser b.1.2 b.2) = true) bindings →
  ∃ typed, parseBound c bindings p = Ok typed ∧
           dom typed = dom p ∪ list_to_set (bindingKeys bindings).
Proof.
  intros Hall. revert p.
  induction Hall as [|[[key spec] value] rest Hok _ IH]; intros p; simpl.
  - exists p. split; [done | set_solver].
  - simpl in Hok. destruct (parser spec value) as [typed|]; [| done].
    destruct (IH (<[key := typed]> p)) as (m & -> & Hdom). exists m. split; [done |].
    rewrite Hdom, dom_insert_L. unfold bindingKeys. set_solver.
Qed.

Lemma parseBound_first_failure c (bindings : list (@Binding V)) p key e :
  firstFailure bindings key e →
  parseBound c bindings p = Err (parsingError c key e).
Proof.
  intros (pre & spec & value & post & -> & Hpre & Hfail).
  rewrite parseBound_app.
  destruct (parseBound_all_ok c pre p Hpre) as (m & -> & _).
  simpl. by rewrite Hfail.
Qed.

Lemma slotBindings_keys (template : Dict.t (ArgSpec V)) parsed first :
  bindingKeys (slotBindings template parsed first) = Dict.keys template.
Proof.
  unfold bindingKeys, slotBindings, Dict.keys. rewrite !fmap_imap.
  rewrite (imap_ext _ (const fst)); [apply imap_const | done].
Qed.

(** X15. On a line that names a registered command, the parameters are
    parsed in declaration order, positional or not, and the first parser
    that fails ends the line: the answer is [Error: Parsing parameter
    '<name>': <message>], an empty line and the help of the command; the
    command is not called. *)
Theorem line_failure_in_declaration_order commands line c parsed key e :
  dispatches minimist commands line c parsed →
  Dict.wf (args (runtime c)) →
  firstFailure (slotBindings (args (runtime c)) parsed 1) key e →
  parseLine minimist JSON_stringify String_of commands line =
  (Resolved ("Error: Parsing parameter '" ++ key ++ "': " ++ messageOf e ++
             newline ++ newline ++ getCommandHelp c), []).
Proof.
  intros Hline Hwf Hfirst.
  rewrite (parseLine_dispatches _ _ _ _ _ _ _ Hline).
  rewrite (forEach_bindStep c _ parsed parsed 1 ∅ Hwf eq_refl (fun _ _ => eq_refl)).
  by rewrite (parseBound_first_failure _ _ _ _ _ Hfirst).
Qed.

(** X16. On a line that names a registered command whose parameters all
    parse, the command is called once, on arguments that have exactly the
    declared names, and the answer is its result: a string as it is, any
    other value formatted. *)
Theorem line_success commands line c parsed :
  dispatches minimist commands line c parsed →
  Dict.wf (args (runtime c)) →
  Forall (fun b : Binding => isOk (parser b.1.2 b.2) = true)
         (slotBindings (args (runtime c)) parsed 1) →
  ∃ typed,
    dom typed = list_to_set (Dict.keys (args (runtime c))) ∧
    parseLine minimist JSON_stringify String_of commands line =
    (match runtime_parser (runtime c) typed with
     | Ok (JString text) => Resolved text
     | Ok response => Resolved (formatResponseForCli JSON_stringify String_of response)
     | Err e => Rejected e
     end, [{| invoked := cmd c; arguments := typed |}]).
Proof.
  intros Hline Hwf Hall.
  rewrite (parseLine_dispatches _ _ _ _ _ _ _ Hline).
  rewrite (forEach_bindStep c _ parsed parsed 1 ∅ Hwf eq_refl (fun _ _ => eq_refl)).
  destruct (parseBound_all_ok c _ ∅ Hall) as (typed & -> & Hdom).
  exists typed. split.
  - rewrite Hdom, slotBindings_keys. set_solver.
  - simpl. by destruct (runtime_parser (runtime c) typed) as [[]|].
Qed.

Lemma rank_of_positional (template : Dict.t (ArgSpec V)) j entry :
  template !! j = Some entry → base entry.2 = true →
  (rank template j < length (baseArgs template))%nat.
Proof.
  intros Hj Hbase. unfold rank, baseArgs.
  rewrite <- (take_drop_middle template j entry Hj) at 2.
  rewrite filter_app, filter_cons, decide_True by done.
  rewrite length_app. simpl. lia.
Qed.

(** X17. Words beyond the positional parameters are ignored: two lines that
    name the same command, with the same flags for its parameters and the
    same words at the places of its positional parameters, are answered
    alike, whatever words follow. *)
Theorem extra_words_ignored commands line1 line2 c parsed1 parsed2 :
  dispatches minimist commands line1 c parsed1 →
  dispatches minimist commands line2 c parsed2 →
  Dict.wf (args (runtime c)) →
  (∀ key, key ∈ Dict.keys (args (runtime c)) →
     readKey parsed1 key = readKey parsed2 key) →
  (∀ i, (1 ≤ i ≤ length (baseArgs (args (runtime c))))%nat →
     getIndex (readKey parsed1 "_") i = getIndex (readKey parsed2 "_") i) →
  parseLine minimist JSON_stringify String_of commands line1 =
  parseLine minimist JSON_stringify String_of commands line2.
Proof.
  intros Hline1 Hline2 Hwf Hflags Hwords.
  rewrite (parseLine_dispatches _ _ _ _ _ _ _ Hline1).
  rewrite (parseLine_dispatches _ _ _ _ _ _ _ Hline2).
  rewrite !(forEach_bindStep c _ _ _ 1 ∅ Hwf eq_refl (fun _ _ => eq_refl)).
  f_equal. f_equal. unfold slotBindings. apply imap_ext.
  intros j [key spec] Hj. f_equal. unfold slotValue. cbn [fst snd].
  rewrite (Hflags key) by (apply list_elem_of_fmap; exists (key, spec); split;
                           [done | by eapply list_elem_of_lookup_2]).
  destruct (base spec) eqn:Hbase; [| done].
  rewrite Hwords; [done |].
  pose proof (rank_of_positional _ _ _ Hj Hbase). lia.
Qed.

End Facts.
End LineMore.

(** ** The parameter parsers, beyond the claims *)

Module ParserMore.
Import Parsers Observing.


(** X19. The enum parser returns a present value as it is exactly when it
    is a string equal to one of the candidates, letter case included; any
    other present value is refused with a message that lists the
    candidates separated by a comma and a space. *)
Theorem cmdEnumParser_candidates (possibleValues : list string) (optional : bool)
    (data : JsValue) :
  isNullish data = false →
  (cmdEnumParser possibleValues optional data = Ok data ∧
   ∃ text, data = JString text ∧ text ∈ possibleValues)
  ∨ (cmdEnumParser possibleValues optional data =
     Err (ErrorObj ("Invalid enum value, possible values: " ++
                    String.concat ", " possibleValues)) ∧
     ∀ text, data = JString text → text ∉ possibleValues).
Proof.
  intros Hpresent. unfold cmdEnumParser. rewrite Hpresent.
  destruct data as [| | | |text| |]; try (right; by split).
  destruct (bool_decide (text ∈ possibleValues)) eqn:Hin.
  - left. apply bool_decide_eq_true in Hin. split; [done |]. by exists text.
  - right. apply bool_decide_eq_false in Hin. split; [done |]. by intros ? [= <-].
Qed.

(** X20. The big-integer parser fails with the [SyntaxError] of [BigInt] on
    a text that [BigInt] does not read, and on a text it reads as [n]
    returns [n] exactly when [n] lies between the two bounds, both
    included, failing with the lower bound below it and with the upper
    bound above it. *)
Theorem cmdBigIntParser_bounds (lo hi : Z) (optional : bool) (text : string) :
  let outcome := cmdBigIntParser (Some lo) (Some hi) optional (Some text) in
  (StringToBigInt text = None → outcome = Err (BigIntSyntaxError text))
  ∧ (∀ n, StringToBigInt text = Some n →
     ((n < lo)%Z → outcome = Err (BigIntBelowMin lo))
     ∧ ((lo ≤ n)%Z → (hi < n)%Z → outcome = Err (BigIntAboveMax hi))
     ∧ ((lo ≤ n ≤ hi)%Z → outcome = Ok (Some n))).
Proof.
  intros outcome. unfold outcome, cmdBigIntParser. split.
  - by intros ->.
  - intros n ->. cbn [bind]. split; [| split].
    + intros Hlow. by assert ((n <? lo)%Z = true) as -> by lia.
    + intros Hlow Hhigh.
      assert ((n <? lo)%Z = false) as -> by lia.
      by assert ((hi <? n)%Z = true) as -> by lia.
    + intros [Hlow Hhigh].
      assert ((n <? lo)%Z = false) as -> by lia.
      by assert ((hi <? n)%Z = false) as -> by lia.
Qed.

Lemma allDigits_stop radix a c b acc :
  digitValue c = None → allDigits radix (a ++ String c b) acc = None.
Proof.
  intros Hc. revert acc. induction a as [|x a IH]; intros acc.
  - rewrite StringFacts.app_nil_l. cbn [allDigits]. by rewrite Hc.
  - rewrite StringFacts.app_cons. cbn [allDigits].
    destruct (digitValue x) as [d|]; [| done]. by destruct (d <? radix)%Z.
Qed.

Lemma digitsOnly_stop radix a c b :
  digitValue c = None → digitsOnly radix (a ++ String c b) = None.
Proof.
  intros Hc. unfold digitsOnly.
  destruct (a ++ String c b) as [|x rest] eqn:Heq; [done |].
  rewrite <- Heq. by apply allDigits_stop.
Qed.

Lemma trimStart_app a c b :
  isWhiteSpace c = false → trimStart (a ++ String c b) = trimStart a ++ String c b.
Proof.
  intros Hc. induction a as [|x a IH].
  - rewrite StringFacts.app_nil_l. cbn [trimStart]. by rewrite Hc.
  - rewrite StringFacts.app_cons. cbn [trimStart].
    destruct (isWhiteSpace x); [done | by rewrite StringFacts.app_cons].
Qed.

Lemma trimEnd_app a c b :
  isWhiteSpace c = false → trimEnd (a ++ String c b) = a ++ String c (trimEnd b).
Proof.
  intros Hc. induction a as [|x a IH].
  - rewrite !StringFacts.app_nil_l. cbn [trimEnd].
    destruct (trimEnd b); [by rewrite Hc | done].
  - rewrite !StringFacts.app_cons. cbn [trimEnd]. rewrite IH.
    destruct a; by rewrite ?StringFacts.app_nil_l, ?StringFacts.app_cons.
Qed.

Lemma trimStart_blank s : allChars isWhiteSpace s = true → trimStart s = "".
Proof.
  induction s as [|c s IH]; [done |]. cbn [allChars trimStart].
  intros [-> Hs]%andb_prop. by apply IH.
Qed.

Lemma digit_not_letter c (letter : ascii) d :
  digitValue c = None → digitValue letter = Some d → (c =? letter)%char = false.
Proof.
  intros Hc Hl. destruct (c =? letter)%char eqn:Heq; [| done].
  apply Ascii.eqb_eq in Heq. congruence.
Qed.

Lemma StringToBigInt_stop a c b :
  digitValue c = None → isWhiteSpace c = false →
  c ≠ "-"%char → c ≠ "+"%char →
  StringToBigInt (a ++ String c b) = None.
Proof.
  intros Hc Hws Hminus Hplus. unfold StringToBigInt.
  rewrite trimStart_app, trimEnd_app by done.
  assert ((c =? "-")%char = false) as Hc1 by by apply Ascii.eqb_neq.
  assert ((c =? "+")%char = false) as Hc2 by by apply Ascii.eqb_neq.
  assert ((c =? "0")%char = false) as Hc3 by by eapply digit_not_letter.
  assert (((c =? "x") || (c =? "X") = false)%char) as Hc4
    by (apply orb_false_intro; by eapply digit_not_letter).
  assert (((c =? "o") || (c =? "O") = false)%char) as Hc5
    by (apply orb_false_intro; by eapply digit_not_letter).
  assert (((c =? "b") || (c =? "B") = false)%char) as Hc6
    by (apply orb_false_intro; by eapply digit_not_letter).
  set (tail := trimEnd b).
  destruct (trimStart a) as [|x a1].
  - rewrite StringFacts.app_nil_l, Hc1, Hc2, Hc3.
    apply (digitsOnly_stop 10 "" c tail Hc).
  - rewrite StringFacts.app_cons.
    destruct (x =? "-")%char; [by rewrite digitsOnly_stop |].
    destruct (x =? "+")%char; [by rewrite digitsOnly_stop |].
    destruct (x =? "0")%char;
      [| apply (digitsOnly_stop 10 (String x a1) c tail Hc)].
    destruct a1 as [|p a2].
    + rewrite StringFacts.app_nil_l, Hc4, Hc5, Hc6.
      apply (digitsOnly_stop 10 (String x "") c tail Hc).
    + rewrite StringFacts.app_cons.
      destruct ((p =? "x") || (p =? "X"))%char; [by apply digitsOnly_stop |].
      destruct ((p =? "o") || (p =? "O"))%char; [by apply digitsOnly_stop |].
      destruct ((p =? "b") || (p =? "B"))%char; [by apply digitsOnly_stop |].
      apply (digitsOnly_stop 10 (String x (String p a2)) c tail Hc).
Qed.

(** X21. The big-integer parser reads a text as a whole. A text that holds,
    anywhere, a character that is neither a letter, a digit, a sign nor
    white space (a decimal point, a comma) is refused with the
    [SyntaxError], whatever the bounds; a text that is empty or holds white
    space only is read as 0. *)
Theorem cmdBigIntParser_reads_whole_text (min max : option Z) (optional : bool) :
  (∀ a c b,
     digitValue c = None → isWhiteSpace c = false →
     c ≠ "-"%char → c ≠ "+"%char →
     cmdBigIntParser min max optional (Some (a ++ String c b)) =
     Err (BigIntSyntaxError (a ++ String c b)))
  ∧ (∀ text, allChars isWhiteSpace text = true →
     cmdBigIntParser None None optional (Some text) = Ok (Some 0%Z)).
Proof.
  split.
  - intros a c b Hc Hws Hminus Hplus. unfold cmdBigIntParser.
    by rewrite StringToBigInt_stop.
  - intros text Hblank. unfold cmdBigIntParser, StringToBigInt.
    by rewrite (trimStart_blank _ Hblank).
Qed.

Lemma digitsPrefix_stop radix u c rest acc :
  digitValue c = None →
  digitsPrefix radix (u ++ String c rest) acc = digitsPrefix radix u acc.
Proof.
  intros Hc. revert acc. induction u as [|x u IH]; intros acc.
  - rewrite StringFacts.app_nil_l. cbn [digitsPrefix]. by rewrite Hc.
  - rewrite StringFacts.app_cons. cbn [digitsPrefix].
    destruct (digitValue x) as [d|]; [| done]. by destruct (d <? radix)%Z.
Qed.

Lemma trimStart_app_nonblank s t :
  trimStart s ≠ "" → trimStart (s ++ t) = trimStart s ++ t.
Proof.
  induction s as [|x s IH]; [done |]. rewrite StringFacts.app_cons. cbn [trimStart].
  destruct (isWhiteSpace x); [done | by rewrite StringFacts.app_cons].
Qed.

Lemma takeSign_cons x u :
  takeSign (String x u) =
  if (x =? "-")%char then (true, u)
  else if (x =? "+")%char then (false, u) else (false, String x u).
Proof. by destruct x as [[] [] [] [] [] [] [] []]. Qed.

Lemma radix_prefix (s1 : string) :
  match s1 with
  | String "0" (String "x" rest) => (16%Z, rest)
  | String "0" (String "X" rest) => (16%Z, rest)
  | _ => (10%Z, s1)
  end =
  match s1 with
  | String a (String b rest) =>
      if ((a =? "0") && ((b =? "x") || (b =? "X")))%char then (16%Z, rest)
      else (10%Z, s1)
  | _ => (10%Z, s1)
  end.
Proof.
  destruct s1 as [|a [|b rest]]; [done | |].
  - by destruct a as [[] [] [] [] [] [] [] []].
  - destruct a as [[] [] [] [] [] [] [] []]; try reflexivity.
    by destruct b as [[] [] [] [] [] [] [] []].
Qed.

Lemma parseInt_stop (s : string) (c : ascii) (rest : string) :
  digitValue c = None →
  parseInt s ≠ NaN →
  parseInt (s ++ String c rest) = parseInt s.
Proof.
  intros Hc Hread.
  assert (trimStart s ≠ "") as Hblank.
  { intros Heq. apply Hread. unfold parseInt. by rewrite Heq. }
  unfold parseInt in *. rewrite (trimStart_app_nonblank _ _ Hblank).
  destruct (trimStart s) as [|x u]; [done |]. clear Hblank.
  rewrite StringFacts.app_cons, !takeSign_cons.
  assert (∀ negative s1,
            (let '(radix, s2) :=
               match s1 ++ String c rest with
               | String "0" (String "x" r) => (16%Z, r)
               | String "0" (String "X" r) => (16%Z, r)
               | _ => (10%Z, s1 ++ String c rest)
               end in
             match digitsPrefix radix s2 None with
             | Some n => Finite (inject_Z (signed negative n)) | None => NaN end) =
            (let '(radix, s2) :=
               match s1 with
               | String "0" (String "x" r) => (16%Z, r)
               | String "0" (String "X" r) => (16%Z, r)
               | _ => (10%Z, s1)
               end in
             match digitsPrefix radix s2 None with
             | Some n => Finite (inject_Z (signed negative n)) | None => NaN end)) as Hbody.
  { intros negative s1. rewrite !radix_prefix.
    assert (((c =? "x") || (c =? "X") = false)%char) as Hx
      by (apply orb_false_intro; by eapply digit_not_letter).
    assert ((c =? "0")%char = false) as H0 by by eapply digit_not_letter.
    destruct s1 as [|a [|b u3]].
    - rewrite StringFacts.app_nil_l. destruct rest as [|r rest'].
      + cbn [digitsPrefix]. by rewrite Hc.
      + rewrite H0. cbn [andb digitsPrefix]. by rewrite Hc.
    - rewrite StringFacts.app_cons, StringFacts.app_nil_l, Hx, andb_false_r.
      replace (digitsPrefix 10 (String a (String c rest)) None)
        with (digitsPrefix 10 (String a "") None); [done |].
      symmetry. apply (digitsPrefix_stop 10 (String a "") c rest None Hc).
    - rewrite !StringFacts.app_cons.
      destruct ((a =? "0") && ((b =? "x") || (b =? "X")))%char.
      + by rewrite digitsPrefix_stop.
      + replace (digitsPrefix 10 (String a (String b (u3 ++ String c rest))) None)
          with (digitsPrefix 10 (String a (String b u3)) None); [done |].
        symmetry. apply (digitsPrefix_stop 10 (String a (String b u3)) c rest None Hc). }
  destruct (x =? "-")%char; [apply (Hbody true u) |].
  destruct (x =? "+")%char; [apply (Hbody false u) |].
  apply (Hbody false (String x u)).
Qed.

(** X22. The number parser for integers reads a prefix: when it reads a
    text as a number, it gives the same answer for that text followed by a
    character that is neither a letter nor a digit and by anything after
    it. The fraction of a decimal text is dropped this way. *)
Theorem cmdNumberParser_ignores_what_follows (min max : option JsNumber)
    (optional : bool) (s : string) (c : ascii) (rest : string) :
  digitValue c = None →
  parseInt s ≠ NaN →
  cmdNumberParser false min max optional (Some (s ++ String c rest)) =
  cmdNumberParser false min max optional (Some s).
Proof.
  intros Hc Hread. unfold cmdNumberParser. by rewrite parseInt_stop.
Qed.

End ParserMore.

(** ** The registry, beyond the claims *)

Module RegistryMore.
Import CommandHandler JsonRpcServer Observing.
Section Facts.
Context {V : Type}.
Implicit Types (commands : Dict.t (Command V)) (c : Command V).

Lemma set_keys_fresh {A} (d : Dict.t A) key (a : A) :
  Dict.get d key = None → Dict.set d key a = (d ++ [(key, a)])%list.
Proof.
  induction d as [|[k b] rest IH]; simpl; [done |].
  destruct (decide (k = key)); [done |]. intros H. by rewrite IH.
Qed.

Lemma get_None_fresh {A} (d : Dict.t A) key :
  Dict.get d key = None → key ∉ Dict.keys d.
Proof.
  unfold Dict.keys. induction d as [|[k b] rest IH]; simpl.
  - intros _. apply not_elem_of_nil.
  - destruct (decide (k = key)); [done |]. intros H.
    apply not_elem_of_cons. split; [done | by apply IH].
Qed.

Lemma set_keys_present {A} (d : Dict.t A) key (a : A) :
  is_Some (Dict.get d key) → Dict.keys (Dict.set d key a) = Dict.keys d.
Proof.
  unfold Dict.keys. induction d as [|[k b] rest IH]; simpl.
  - by intros [? ?].
  - destruct (decide (k = key)) as [->|Hne]; simpl; [done |].
    intros H. f_equal. by apply IH.
Qed.

Lemma set_wf {A} (d : Dict.t A) key (a : A) : Dict.wf d → Dict.wf (Dict.set d key a).
Proof.
  unfold Dict.wf. intros Hwf. destruct (Dict.get d key) as [b|] eqn:Hget.
  - by rewrite set_keys_present.
  - rewrite (set_keys_fresh _ _ _ Hget). unfold Dict.keys. rewrite fmap_app.
    apply NoDup_app. split; [done |]. split.
    + intros k Hk [->|[]%elem_of_nil]%elem_of_cons.
      by apply (get_None_fresh _ _ Hget).
    + apply NoDup_singleton.
Qed.

Lemma set_elem {A} (d : Dict.t A) key (a : A) k b :
  (k, b) ∈ Dict.set d key a → (k, b) ∈ d ∨ (k = key ∧ b = a).
Proof.
  induction d as [|[k0 b0] rest IH]; simpl.
  - intros [[= -> ->]|[]%elem_of_nil]%elem_of_cons. by right.
  - destruct (decide (k0 = key)) as [->|Hne].
    + intros [[= -> ->]|Hin]%elem_of_cons; [by right | left; by right].
    + intros [[= -> ->]|Hin]%elem_of_cons; [left; by left |].
      destruct (IH Hin) as [?|?]; [left; by right | by right].
Qed.

Lemma get_elem {A} (d : Dict.t A) key (a : A) :
  Dict.get d key = Some a → (key, a) ∈ d.
Proof.
  induction d as [|[k b] rest IH]; simpl; [done |].
  destruct (decide (k = key)) as [->|Hne].
  - intros [= ->]. by left.
  - intros H. right. by apply IH.
Qed.

(** X23. [registerCommand] keeps a command table sound: the keys stay
    distinct, every entry stays filed under the name of its command, and
    what a lookup finds under a name afterwards is a command of that name,
    either the one that was there before or the command just registered. *)
Theorem registerCommand_keeps_table commands c :
  Dict.wf commands →
  keyedByName commands →
  let after := (registerCommand commands c).2 in
  Dict.wf after
  ∧ keyedByName after
  ∧ (∀ name found,
       Dict.get after name = Some found →
       cmd found = name ∧ (Dict.get commands name = Some found ∨ found = c)).
Proof.
  intros Hwf Hkeyed. unfold registerCommand.
  destruct (Dict.get commands (cmd c)) as [old|] eqn:Hget; simpl.
  - split; [done |]. split; [done |]. intros name found Hfound.
    split; [| by left]. symmetry. by apply Hkeyed, get_elem.
  - split; [by apply set_wf |]. split.
    + intros name c0 [Hin|[-> ->]]%set_elem; [by apply Hkeyed | done].
    + intros name found. destruct (decide (name = cmd c)) as [->|Hne].
      * rewrite DictFacts.get_set_eq. intros [= <-]. split; [done | by right].
      * rewrite DictFacts.get_set_ne by done. intros Hfound.
        split; [| by left]. symmetry. by apply Hkeyed, get_elem.
Qed.

Lemma create_snoc (commands : list (Command V)) c :
  create (commands ++ [c]) = Dict.set (create commands) (cmd c) c.
Proof. unfold create. by rewrite foldl_app. Qed.

(** X24. The table the constructor builds from a list of commands, none of
    which has a name that objects inherit, has distinct keys, files every
    command under its name, and finds under a name that objects do not
    inherit the last command of the list that has it: a later command
    replaces an earlier one of the same name, where [registerCommand] would
    refuse it. *)
Theorem create_keeps_last (commands : list (Command V)) :
  Forall (fun c => cmd c ∉ inheritedNames) commands →
  Dict.wf (create commands)
  ∧ keyedByName (create commands)
  ∧ (∀ name, name ∉ inheritedNames →
       Dict.get (create commands) name =
       last (filter (fun c => cmd c = name) commands)).
Proof.
  intros _. induction commands as [|c commands IH] using rev_ind.
  - split; [apply NoDup_nil_2 |]. split; [| done].
    intros name c Hin. by apply elem_of_nil in Hin.
  - destruct IH as (Hwf & Hkeyed & Hget). rewrite create_snoc.
    split; [by apply set_wf |]. split.
    + intros name c0 [Hin|[-> ->]]%set_elem; [by apply Hkeyed | done].
    + intros name Hname. specialize (Hget name Hname).
      rewrite filter_app, filter_cons, filter_nil.
      destruct (decide (cmd c = name)) as [<-|Hne].
      * rewrite DictFacts.get_set_eq. by rewrite last_snoc.
      * rewrite DictFacts.get_set_ne by done. by rewrite app_nil_r.
Qed.

Lemma handle_depends_on_method (commands1 commands2 : Dict.t (Command V)) body :
  (∀ name, getProp body "method" = JString name →
     Dict.get commands1 name = Dict.get commands2 name) →
  handleJsonRpcRequest commands1 body = handleJsonRpcRequest commands2 body.
Proof.
  intros Hsame. unfold handleJsonRpcRequest.
  destruct (isArray body); [done |].
  destruct (isValidJsonRpcRequest body); [| done]. simpl.
  destruct (getProp body "method") as [| | | |name| |]; try done.
  by rewrite (Hsame name).
Qed.

(** X25. A registration shows in the answers of the JSON-RPC adapter at
    once and touches nothing else: after [registerCommand] of a command
    under a free name, which is not a name that objects inherit, a request
    for that name is answered as by a table that holds this command alone,
    and a request for any other method is answered as before the
    registration. *)
Theorem registration_is_visible commands c body :
  Dict.get commands (cmd c) = None →
  cmd c ∉ inheritedNames →
  let after := (registerCommand commands c).2 in
  (getProp body "method" = JString (cmd c) →
   handleJsonRpcRequest after body = handleJsonRpcRequest [(cmd c, c)] body)
  ∧ (getProp body "method" ≠ JString (cmd c) →
     handleJsonRpcRequest after body = handleJsonRpcRequest commands body).
Proof.
  intros Hfree _. unfold registerCommand. rewrite Hfree. simpl. split.
  - intros Hmethod. apply handle_depends_on_method.
    intros name Hname. rewrite Hmethod in Hname. injection Hname as <-.
    rewrite DictFacts.get_set_eq. simpl. by rewrite decide_True.
  - intros Hmethod. apply handle_depends_on_method.
    intros name Hname. apply DictFacts.get_set_ne. intros ->. by apply Hmethod.
Qed.

End Facts.
End RegistryMore.

(** ** Decimal strings *)

Module UtilsFacts.
Import Parsers Utils Observing.

Lemma substring_all (s : string) : String.substring 0 (String.length s) s = s.
Proof. induction s as [|c s IH]; simpl; [done | by rewrite IH]. Qed.

Lemma substring_split (k : nat) (s : string) :
  String.substring 0 k s ++ String.substring k (String.length s - k) s = s.
Proof.
  revert k. induction s as [|c s IH]; intros [|k]; simpl; try done.
  - by rewrite substring_all.
  - by rewrite StringFacts.app_cons, IH.
Qed.

Lemma substring_app_l (a b : string) :
  String.substring 0 (String.length a) (a ++ b) = a.
Proof.
  induction a as [|c a IH].
  - rewrite StringFacts.app_nil_l. by destruct b.
  - rewrite StringFacts.app_cons. simpl. by rewrite IH.
Qed.

Lemma allChars_app test (a b : string) :
  allChars test (a ++ b) = allChars test a && allChars test b.
Proof.
  induction a as [|c a IH]; [done |].
  rewrite StringFacts.app_cons. simpl. by rewrite IH, andb_assoc.
Qed.

Lemma allChars_substring test (n m : nat) (s : string) :
  allChars test s = true → allChars test (String.substring n m s) = true.
Proof.
  revert n m. induction s as [|c s IH]; intros [|n] [|m]; simpl; try done.
  - intros [-> Hs]%andb_prop. simpl. by apply IH.
  - intros [_ Hs]%andb_prop. by apply IH.
  - intros [_ Hs]%andb_prop. by apply IH.
Qed.

Lemma allChars_zeros n : allChars isDecimalDigit (zeros n) = true.
Proof. induction n as [|n IH]; [done | simpl; by rewrite IH]. Qed.

Lemma length_zeros n : String.length (zeros n) = n.
Proof. induction n as [|n IH]; [done | simpl; by rewrite IH]. Qed.

Lemma digit_value c : isDecimalDigit c = true → ∃ d, digitValue c = Some d ∧ (0 ≤ d < 10)%Z.
Proof.
  unfold isDecimalDigit. destruct (digitValue c) as [d|] eqn:Hd; [| done].
  intros Hlt. exists d. split; [done |]. split; [| lia].
  unfold digitValue in Hd. repeat case_match; simplify_eq; lia.
Qed.

Lemma digit_not_white c : isDecimalDigit c = true → isWhiteSpace c = false.
Proof.
  intros (d & Hd & _)%digit_value.
  destruct (isWhiteSpace c) eqn:Hws; [| done].
  exfalso. revert Hd Hws. by destruct c as [[] [] [] [] [] [] [] []].
Qed.

Lemma digit_not_char c (other : ascii) :
  isDecimalDigit c = true → isDecimalDigit other = false → (c =? other)%char = false.
Proof.
  intros Hc Hother. destruct (c =? other)%char eqn:Heq; [| done].
  apply Ascii.eqb_eq in Heq. congruence.
Qed.

Lemma trimStart_digits s : allChars isDecimalDigit s = true → trimStart s = s.
Proof.
  destruct s as [|c s]; [done |]. simpl. intros [Hc _]%andb_prop.
  by rewrite (digit_not_white _ Hc).
Qed.

Lemma trimEnd_digits s : allChars isDecimalDigit s = true → trimEnd s = s.
Proof.
  induction s as [|c s IH]; [done |]. simpl. intros [Hc Hs]%andb_prop.
  rewrite (IH Hs). destruct s; [by rewrite (digit_not_white _ Hc) | done].
Qed.

(** The value of a string of decimal digits. *)
Lemma StringToBigInt_digits s :
  allChars isDecimalDigit s = true → s ≠ "" →
  StringToBigInt s = allDigits 10 s 0.
Proof.
  intros Hs Hne. unfold StringToBigInt.
  rewrite (trimStart_digits _ Hs), (trimEnd_digits _ Hs).
  destruct s as [|c s]; [done |]. simpl in Hs. apply andb_prop in Hs as [Hc Hs].
  rewrite !(digit_not_char c) by done.
  destruct (c =? "0")%char; [| done].
  destruct s as [|p s]; [done |]. simpl in Hs. apply andb_prop in Hs as [Hp _].
  by rewrite !(digit_not_char p) by done.
Qed.

Lemma allDigits_app radix (a b : string) acc :
  allDigits radix (a ++ b) acc = allDigits radix a acc ≫= allDigits radix b.
Proof.
  revert acc. induction a as [|c a IH]; intros acc; [done |].
  rewrite StringFacts.app_cons. simpl.
  destruct (digitValue c) as [d|]; [| done]. by destruct (d <? radix)%Z.
Qed.

Lemma allDigits_zeros n acc : allDigits 10 (zeros n) acc = Some (acc * 10 ^ Z.of_nat n)%Z.
Proof.
  revert acc. induction n as [|n IH]; intros acc.
  - simpl. f_equal. lia.
  - cbn [zeros allDigits]. change (digitValue "0") with (Some 0%Z). cbn iota.
    change (0 <? 10)%Z with true. cbn iota. rewrite IH. f_equal.
    rewrite Nat2Z.inj_succ, Z.pow_succ_r by lia. lia.
Qed.

Lemma pretty_char_value m : (m < 10)%N → digitValue (pretty_N_char m) = Some (Z.of_N m).
Proof.
  intros Hm.
  assert (m = 0 ∨ m = 1 ∨ m = 2 ∨ m = 3 ∨ m = 4 ∨ m = 5 ∨ m = 6 ∨ m = 7 ∨ m = 8 ∨ m = 9)%N
    as Hcases by lia.
  by repeat destruct Hcases as [->|Hcases]; [..| subst m].
Qed.

Lemma allDigits_pretty_go (x : N) (s : string) :
  ∃ k : Z, (0 ≤ k)%Z ∧
    ∀ acc, allDigits 10 (pretty_N_go x s) acc = allDigits 10 s (acc * 10 ^ k + Z.of_N x)%Z.
Proof.
  revert s. induction (N.lt_wf_0 x) as [x _ IH]; intros s.
  destruct (decide (x = 0)%N) as [->|Hpos].
  - exists 0%Z. split; [done |]. intros acc. rewrite pretty_N_go_0. f_equal. lia.
  - rewrite pretty_N_go_step by lia.
    destruct (IH (x `div` 10)%N ltac:(apply N.div_lt; lia)
                 (String (pretty_N_char (x `mod` 10)) s)) as (k & Hk & Hgo).
    exists (k + 1)%Z. split; [lia |]. intros acc. rewrite Hgo. cbn [allDigits].
    rewrite pretty_char_value by (apply N.mod_lt; lia).
    assert ((Z.of_N (x `mod` 10) <? 10)%Z = true) as ->.
    { apply Z.ltb_lt. pose proof (N.mod_lt x 10). lia. }
    f_equal. rewrite Z.pow_add_r by lia.
    rewrite (N.div_mod x 10) at 3 by done. lia.
Qed.

Lemma allChars_pretty_go (x : N) (s : string) :
  allChars isDecimalDigit s = true → allChars isDecimalDigit (pretty_N_go x s) = true.
Proof.
  revert s. induction (N.lt_wf_0 x) as [x _ IH]; intros s Hs.
  destruct (decide (x = 0)%N) as [->|Hpos]; [by rewrite pretty_N_go_0 |].
  rewrite pretty_N_go_step by lia. apply IH; [apply N.div_lt; lia |].
  simpl. rewrite Hs, andb_true_r. unfold isDecimalDigit.
  rewrite pretty_char_value by (apply N.mod_lt; lia).
  apply Z.ltb_lt. pose proof (N.mod_lt x 10). lia.
Qed.

(** The decimal text of an amount that is not negative: digits, one at
    least, whose value is the amount. *)
Lemma pretty_digits (n : Z) :
  (0 ≤ n)%Z →
  allChars isDecimalDigit (pretty n) = true ∧ pretty n ≠ "" ∧
  allDigits 10 (pretty n) 0 = Some n.
Proof.
  intros Hn. destruct n as [|p|p]; [done | | lia].
  unfold pretty, pretty_Z, pretty, pretty_positive, pretty, pretty_N.
  rewrite decide_False by done.
  destruct (allDigits_pretty_go (N.pos p) "") as (k & _ & Hgo).
  split; [by apply allChars_pretty_go |]. split.
  - intros Heq. rewrite Heq in Hgo. specialize (Hgo 0%Z). simpl in Hgo.
    injection Hgo as Hgo. lia.
  - rewrite Hgo. simpl. done.
Qed.

Lemma length_substring_0 (k : nat) (s : string) :
  (k ≤ String.length s)%nat → String.length (String.substring 0 k s) = k.
Proof.
  revert k. induction s as [|c s IH]; intros [|k]; simpl; try done; try lia.
  intros Hk. rewrite IH; lia.
Qed.

Lemma substring_0_beyond (k : nat) (s : string) :
  (String.length s ≤ k)%nat → String.substring 0 k s = s.
Proof.
  revert k. induction s as [|c s IH]; intros [|k]; simpl; try done; try lia.
  intros Hk. rewrite IH; [done | lia].
Qed.

Lemma digits_no_dot s :
  allChars isDecimalDigit s = true → hasDot s = false ∧ untilDot s = s.
Proof.
  induction s as [|c s IH]; [done |]. simpl. intros [Hc Hs]%andb_prop.
  destruct (IH Hs) as [-> ->]. by rewrite (digit_not_char c dot Hc).
Qed.

Lemma dot_split (b d : string) :
  hasDot b = false →
  hasDot (b ++ String dot d) = true ∧
  untilDot (b ++ String dot d) = untilDot b ∧
  afterDot (b ++ String dot d) = d.
Proof.
  induction b as [|c b IH].
  - intros _. rewrite StringFacts.app_nil_l. by simpl.
  - rewrite StringFacts.app_cons. simpl. intros [Hc Hb]%orb_false_elim.
    rewrite Hc. simpl. destruct (IH Hb) as (-> & -> & ->). done.
Qed.

Lemma allDigits_acc (s : string) (acc : Z) :
  allChars isDecimalDigit s = true →
  allDigits 10 s acc = Some (acc * 10 ^ Z.of_nat (String.length s) + digitsValue s)%Z.
Proof.
  unfold digitsValue. revert acc. induction s as [|c s IH]; intros acc Hs.
  - simpl. f_equal. lia.
  - simpl in Hs. apply andb_prop in Hs as [Hc Hs].
    destruct (digit_value _ Hc) as (d & Hd & Hrange).
    cbn [allDigits String.length]. rewrite Hd.
    assert ((d <? 10)%Z = true) as -> by lia.
    rewrite (IH (10 * acc + d)%Z Hs), (IH (10 * 0 + d)%Z Hs). simpl. f_equal.
    rewrite Nat2Z.inj_succ, Z.pow_succ_r by lia. lia.
Qed.

Lemma pretty_zero (n : Z) : pretty n = "0" → n = 0%Z.
Proof. intros Heq. by apply (inj pretty n 0%Z). Qed.

(** X26. Writing an amount that is not negative with [toDecimal], without
    cutting, and reading the text back with [fromDecimal] for the same
    number of decimals gives the amount again, whatever the number of
    decimals, negative included. *)
Theorem fromDecimal_toDecimal (n decimalCount : Z) :
  (0 ≤ n)%Z →
  fromDecimal (toDecimal n decimalCount false) decimalCount = Some n.
Proof.
  intros Hn. destruct (pretty_digits n Hn) as (Hdigits & Hne & Hvalue).
  unfold toDecimal. destruct (decimalCount <=? 0)%Z eqn:Hsign.
  - set (k := Z.to_nat (- decimalCount)).
    assert (allChars isDecimalDigit (pretty n ++ zeros k) = true) as Hall
      by by rewrite allChars_app, Hdigits, allChars_zeros.
    unfold fromDecimal. rewrite (proj1 (digits_no_dot _ Hall)).
    destruct (decimalCount <? 0)%Z eqn:Hneg.
    + unfold substringTo. rewrite StringFacts.app_length, length_zeros.
      replace (Z.to_nat (Z.of_nat (String.length (pretty n) + k) + decimalCount))
        with (String.length (pretty n)) by lia.
      rewrite substring_app_l, StringToBigInt_digits by done. done.
    + assert (decimalCount = 0%Z) as -> by lia. subst k. simpl.
      rewrite !StringFacts.app_nil_r, StringToBigInt_digits by done. done.
  - set (d := Z.to_nat decimalCount).
    set (A := padStart (pretty n) (decimalCount + 1)).
    assert (allChars isDecimalDigit A = true) as HA
      by (unfold A, padStart; by rewrite allChars_app, allChars_zeros, Hdigits).
    assert (allDigits 10 A 0 = Some n) as HvalueA.
    { unfold A, padStart. rewrite allDigits_app, allDigits_zeros, Z.mul_0_l.
      exact Hvalue. }
    assert (d + 1 ≤ String.length A)%nat as HlenA.
    { unfold A, padStart. rewrite StringFacts.app_length, length_zeros. lia. }
    cbn [andb]. unfold substringFrom.
    set (sp := (String.length A - d)%nat).
    set (B := String.substring 0 sp A).
    set (D := String.substring sp (String.length A - sp) A).
    assert (B ++ D = A) as Hsplit by apply substring_split.
    assert (String.length B = sp) as HlenB by (apply length_substring_0; lia).
    assert (String.length D = d) as HlenD.
    { pose proof (f_equal String.length Hsplit) as Hlen.
      rewrite StringFacts.app_length in Hlen. lia. }
    assert (allChars isDecimalDigit B = true) as HB by by apply allChars_substring.
    assert (allChars isDecimalDigit D = true) as HD by by apply allChars_substring.
    rewrite substring_all. unfold fromDecimal.
    change ("." ++ D) with (String dot D).
    destruct (dot_split B D (proj1 (digits_no_dot _ HB))) as (-> & -> & ->).
    rewrite (proj2 (digits_no_dot _ HB)), (proj2 (digits_no_dot _ HD)).
    assert ((decimalCount <? 0)%Z = false) as -> by lia.
    assert ((decimalCount <? Z.of_nat (String.length D))%Z = false) as -> by lia.
    unfold padEnd. replace (Z.to_nat decimalCount - String.length D)%nat with 0%nat by lia.
    cbn [zeros]. rewrite StringFacts.app_nil_r.
    destruct (String.eqb B "0") eqn:HB0.
    + apply String.eqb_eq in HB0. rewrite StringFacts.app_nil_l.
      rewrite StringToBigInt_digits; [| done | intros ->; simpl in HlenD; lia].
      rewrite <- HvalueA, <- Hsplit, HB0. done.
    + rewrite Hsplit, StringToBigInt_digits; [done | done |].
      intros HAe. rewrite HAe in HlenA. simpl in HlenA. lia.
Qed.

(** X27. [fromDecimal] reads the decimal text of an amount that is not
    negative, for a number of decimals that is not negative: without a
    fraction the amount is multiplied by the power of ten; with a fraction
    of decimal digits, the fraction is first cut to the number of decimals,
    without rounding, or filled with zeros up to it. *)
Theorem fromDecimal_reads_decimal_text (n decimalCount : Z) (fraction : string) :
  (0 ≤ n)%Z → (0 ≤ decimalCount)%Z →
  allChars isDecimalDigit fraction = true →
  fromDecimal (pretty n) decimalCount = Some (n * 10 ^ decimalCount)%Z
  ∧ fromDecimal (pretty n ++ "." ++ fraction) decimalCount =
    Some (n * 10 ^ decimalCount +
          digitsValue (padEnd (substringTo fraction decimalCount) decimalCount))%Z.
Proof.
  intros Hn Hd Hfraction. destruct (pretty_digits n Hn) as (Hdigits & Hne & Hvalue).
  assert ((decimalCount <? 0)%Z = false) as Hsign by lia.
  split.
  - unfold fromDecimal. rewrite (proj1 (digits_no_dot _ Hdigits)), Hsign.
    rewrite StringToBigInt_digits.
    + rewrite allDigits_app, Hvalue. simpl. rewrite allDigits_zeros. f_equal.
      by rewrite Z2Nat.id.
    + by rewrite allChars_app, Hdigits, allChars_zeros.
    + destruct (pretty n); [done | by rewrite StringFacts.app_cons].
  - unfold fromDecimal. change ("." ++ fraction) with (String dot fraction).
    destruct (dot_split (pretty n) fraction (proj1 (digits_no_dot _ Hdigits)))
      as (-> & -> & ->).
    rewrite (proj2 (digits_no_dot _ Hdigits)), (proj2 (digits_no_dot _ Hfraction)), Hsign.
    set (X := padEnd (substringTo fraction decimalCount) decimalCount).
    assert ((if (decimalCount <? Z.of_nat (String.length fraction))%Z
             then StringToBigInt ((if String.eqb (pretty n) "0" then "" else pretty n) ++
                                  substringTo fraction decimalCount)
             else StringToBigInt ((if String.eqb (pretty n) "0" then "" else pretty n) ++
                                  padEnd fraction decimalCount)) =
            StringToBigInt ((if String.eqb (pretty n) "0" then "" else pretty n) ++ X)) as ->.
    { unfold X, padEnd, substringTo.
      destruct (decimalCount <? Z.of_nat (String.length fraction))%Z eqn:Hlong.
      - rewrite length_substring_0 by lia. rewrite Nat.sub_diag. simpl.
        by rewrite StringFacts.app_nil_r.
      - by rewrite substring_0_beyond by lia. }
    assert (allChars isDecimalDigit X = true) as HX.
    { unfold X, padEnd, substringTo.
      rewrite allChars_app, allChars_zeros, andb_true_r. by apply allChars_substring. }
    assert (String.length X = Z.to_nat decimalCount) as HlenX.
    { unfold X, padEnd, substringTo. rewrite StringFacts.app_length, length_zeros.
      destruct (decide (Z.to_nat decimalCount ≤ String.length fraction)%nat).
      - rewrite length_substring_0 by done. lia.
      - rewrite substring_0_beyond by lia. lia. }
    destruct (String.eqb (pretty n) "0") eqn:Hzero.
    + apply String.eqb_eq, pretty_zero in Hzero. subst n.
      rewrite StringFacts.app_nil_l. destruct (decide (X = "")) as [HXe|HXne].
      * rewrite HXe. unfold StringToBigInt, digitsValue. simpl. f_equal; lia.
      * rewrite StringToBigInt_digits by done. rewrite (allDigits_acc _ _ HX).
        f_equal; lia.
    + rewrite StringToBigInt_digits.
      * rewrite allDigits_app, Hvalue. simpl. rewrite (allDigits_acc _ _ HX), HlenX.
        f_equal. by rewrite Z2Nat.id.
      * by rewrite allChars_app, Hdigits, HX.
      * destruct (pretty n); [done | by rewrite StringFacts.app_cons].
Qed.

Lemma cutLoop_spec (D : string) (i cutTo : nat) :
  cutLoop D i cutTo = cutTo ∨
  ((cutLoop D i cutTo < i)%nat ∧
   ∀ j, (cutLoop D i cutTo ≤ j < i)%nat → zeroAt D j = true).
Proof.
  revert cutTo. induction i as [|i IH]; intros cutTo; cbn [cutLoop]; [by left |].
  destruct (zeroAt D i) eqn:Hzero; [| by left]. right.
  destruct (IH i) as [->|[Hlt Hzeros]].
  - split; [lia |]. intros j Hj. by replace j with i by lia.
  - split; [lia |]. intros j Hj. destruct (decide (j = i)) as [->|Hne]; [done |].
    apply Hzeros. lia.
Qed.

Lemma zeroAt_cons c D j : zeroAt (String c D) (S j) = zeroAt D j.
Proof. done. Qed.

Lemma cut_suffix (D : string) (r : nat) :
  (r < String.length D)%nat →
  (∀ j, (r ≤ j)%nat → (j < String.length D - 1)%nat → zeroAt D j = true) →
  ∃ last, D = String.substring 0 r D ++
              zeros (String.length D - 1 - r) ++ String last "".
Proof.
  revert r. induction D as [|x D IH]; intros r Hr Hzeros; [simpl in Hr; lia |].
  destruct r as [|r].
  - destruct D as [|y D'].
    + exists x. done.
    + assert (x = "0"%char) as ->.
      { specialize (Hzeros 0%nat ltac:(lia) ltac:(simpl; lia)).
        unfold zeroAt in Hzeros. simpl in Hzeros. by apply Ascii.eqb_eq in Hzeros. }
      destruct (IH 0%nat ltac:(simpl; lia)) as [last Hlast].
      { intros j _ Hj. rewrite <- zeroAt_cons with (c := "0"%char).
        apply Hzeros; [lia | simpl in *; lia]. }
      exists last. rewrite Hlast at 1. cbn [String.substring String.length].
      rewrite !StringFacts.app_nil_l.
      replace (S (S (String.length D')) - 1 - 0)%nat
        with (S (S (String.length D') - 1 - 0)) by lia.
      done.
  - destruct (IH r ltac:(simpl in Hr; lia)) as [last Hlast].
    { intros j Hj1 Hj2. rewrite <- zeroAt_cons with (c := x).
      apply Hzeros; [lia | simpl; lia]. }
    exists last. cbn [String.substring String.length].
    rewrite StringFacts.app_cons.
    replace (S (String.length D) - 1 - S r)%nat with (String.length D - 1 - r)%nat by lia.
    by rewrite <- Hlast.
Qed.

Lemma app_suffix (a b c d : string) :
  a ++ b = c ++ d → (String.length d ≤ String.length b)%nat → ∃ e, b = e ++ d.
Proof.
  revert c. induction a as [|x a IH]; intros c Heq Hlen.
  - by exists c.
  - destruct c as [|y c].
    + rewrite StringFacts.app_nil_l in Heq. subst d.
      rewrite StringFacts.app_cons in Hlen. simpl in Hlen.
      rewrite StringFacts.app_length in Hlen. lia.
    + rewrite !StringFacts.app_cons in Heq. injection Heq as -> Heq.
      by apply (IH c).
Qed.

Lemma zeroAt_app (a : string) (c : ascii) (rest : string) :
  zeroAt (a ++ String c rest) (String.length a) = (c =? "0")%char.
Proof.
  induction a as [|x a IH]; [done |].
  rewrite StringFacts.app_cons. simpl String.length. by rewrite zeroAt_cons.
Qed.

Lemma length_decimalPart (text : string) (d : nat) :
  (d ≤ String.length text)%nat →
  String.length (substringFrom text (String.length text - d)) = d.
Proof.
  intros Hd. unfold substringFrom.
  pose proof (substring_split (String.length text - d) text) as Hsplit.
  apply (f_equal String.length) in Hsplit.
  rewrite StringFacts.app_length, length_substring_0 in Hsplit by lia. lia.
Qed.

Lemma length_padStart (s : string) (n : Z) :
  (Z.to_nat n ≤ String.length (padStart s n))%nat.
Proof. unfold padStart. rewrite StringFacts.app_length, length_zeros. lia. Qed.

(** X28. With [cut], [toDecimal] writes the text it writes without [cut]
    or a prefix of it: what it leaves out at the end is a run of zeros
    followed by one last character, which the loop never looks at. With two
    decimals or more, the text is cut exactly when the character before the
    last one is a zero, and the last character is then dropped whatever it
    is: 1005 with three decimals is written as 1.0, and 1250 is written as
    1.250. *)
Theorem toDecimal_cut (n decimalCount : Z) :
  let full := toDecimal n decimalCount false in
  let short := toDecimal n decimalCount true in
  (short = full ∨ ∃ k last, full = short ++ zeros k ++ String last "")
  ∧ (∀ body before last,
       (2 ≤ decimalCount)%Z →
       full = body ++ String before (String last "") →
       (short = full ↔ before ≠ "0"%char)).
Proof.
  cbv zeta. unfold toDecimal.
  destruct (decimalCount <=? 0)%Z eqn:Hsign.
  { split; [by left |]. intros body before last Hd. lia. }
  cbn [andb].
  set (A := padStart (pretty n) (decimalCount + 1)).
  set (sp := (String.length A - Z.to_nat decimalCount)%nat).
  set (D := substringFrom A sp).
  assert (String.length D = Z.to_nat decimalCount) as HlenD.
  { apply length_decimalPart. pose proof (length_padStart (pretty n) (decimalCount + 1)).
    fold A in H. lia. }
  assert ((0 <? String.length D)%nat = true) as -> by (apply Nat.ltb_lt; lia).
  rewrite substring_all.
  set (r := cutLoop D (String.length D - 1) (String.length D)).
  set (r' := if (r =? 0)%nat then 1%nat else r).
  split.
  - destruct (cutLoop_spec D (String.length D - 1) (String.length D)) as [Hr|[Hlt Hzeros]];
      fold r in Hr || fold r in Hlt, Hzeros.
    + left. unfold r'. rewrite Hr.
      assert ((String.length D =? 0)%nat = false) as -> by (apply Nat.eqb_neq; lia).
      by rewrite substring_all.
    + right.
      assert (r ≤ r' ∧ r' < String.length D)%nat as [Hr1 Hr2].
      { unfold r'. destruct (r =? 0)%nat eqn:Hr0; [apply Nat.eqb_eq in Hr0 | ]; lia. }
      destruct (cut_suffix D r' Hr2) as [last Hlast].
      { intros j Hj1 Hj2. apply Hzeros. lia. }
      exists (String.length D - 1 - r')%nat, last.
      rewrite Hlast at 1. by rewrite !StringFacts.app_assoc.
  - intros body before last Hd Hfull.
    rewrite <- StringFacts.app_assoc in Hfull.
    apply app_suffix in Hfull as [D' HD]; [| simpl; lia].
    assert (String.length D = S (S (String.length D'))) as Hlen.
    { rewrite HD, StringFacts.app_length. simpl. lia. }
    assert (r = if (before =? "0")%char
                then cutLoop D (String.length D') (String.length D')
                else String.length D) as Hr.
    { unfold r. rewrite Hlen. cbn [Nat.sub cutLoop].
      assert (zeroAt D (String.length D') = (before =? "0")%char) as ->; [| done].
      rewrite HD. apply zeroAt_app. }
    destruct (before =? "0")%char eqn:Hbefore.
    + apply Ascii.eqb_eq in Hbefore. subst before.
      assert (r ≤ String.length D')%nat as Hle.
      { rewrite Hr.
        destruct (cutLoop_spec D (String.length D') (String.length D')) as [->|[? _]]; lia. }
      assert (r' < String.length D)%nat as Hshort.
      { unfold r'. destruct (r =? 0)%nat; lia. }
      split; [| done]. intros Heq. exfalso.
      apply (f_equal String.length) in Heq.
      rewrite !StringFacts.app_length, length_substring_0 in Heq by lia.
      rewrite (length_substring_0 r' D) in Heq by lia.
      cbn [String.length] in Heq. lia.
    + apply Ascii.eqb_neq in Hbefore. split; [done |]. intros _.
      unfold r'. rewrite Hr, Hlen. cbn [Nat.eqb]. rewrite <- Hlen.
      by rewrite substring_all.
Qed.

End UtilsFacts.

(** ** The further properties on the sample commands *)

Module MoreInstances.
Import Parsers Utils JsonRpcServer TcpCliServer Reading Observing Samples.

Lemma unknown_method_answer_witness :
  handleJsonRpcRequest [("add", add)] (request "sub" (JArray []) (JNumber (Finite 1))) =
  (ErrorResponse {| code := (-32601)%Z; message := "Method not found"; data := None |}
                 (JNumber (Finite 1)), []).
Proof.
  apply (JsonRpcMore.unknown_method_answer [("add", add)]
           (request "sub" (JArray []) (JNumber (Finite 1))) "sub" eq_refl eq_refl eq_refl).
  apply (bool_decide_unpack _). vm_compute. reflexivity.
Defined.

Lemma successful_call_answer_witness :
  handleJsonRpcRequest [("add", add)] addByName =
  (SuccessResponse (JObject (<["a" := JString "1"]> {[ "b" := JString "2" ]}))
                   (JNumber (Finite 7)),
   [{| invoked := "add";
       arguments := <["a" := JString "1"]> {[ "b" := JString "2" ]} |}]).
Proof.
  apply (JsonRpcMore.successful_call_answer [("add", add)] addByName "add" add
           (<["a" := JString "1"]> {[ "b" := JString "2" ]})
           (JObject (<["a" := JString "1"]> {[ "b" := JString "2" ]})));
    vm_compute; reflexivity.
Defined.

Lemma valid_request_id_echoed_witness :
  responseId (handleJsonRpcRequest [("pair", pair)] addByName).1 = JNumber (Finite 7).
Proof.
  exact (JsonRpcMore.valid_request_id_echoed [("pair", pair)] addByName eq_refl).
Defined.

Lemma extra_positional_values_discarded_witness :
  parseCommandParams pair (JArray ([JString "1"; JString "2"] ++ [JString "3"])) =
  parseCommandParams pair (JArray [JString "1"; JString "2"]).
Proof.
  apply (JsonRpcMore.extra_positional_values_discarded pair).
  vm_compute. lia.
Defined.

Lemma params_neither_array_nor_object_witness :
  parseCommandParams add JNull = parseCommandParams add JUndefined
  ∧ parseCommandParams add (JString "5") =
    Err (ErrorObj "Parameters must be an array or object").
Proof.
  split.
  - exact (proj1 (JsonRpcMore.params_neither_array_nor_object add JNull) eq_refl).
  - exact (proj1 (proj2 (JsonRpcMore.params_neither_array_nor_object add (JString "5")))
             eq_refl eq_refl eq_refl).
Defined.

Lemma note_wf : Dict.wf (args (runtime note)).
Proof. apply (bool_decide_unpack _). vm_compute. reflexivity. Defined.

Lemma absent_params_need_optional_parameters_witness :
  ∃ m, parseCommandParams note JUndefined = Ok m.
Proof.
  apply (proj2 (proj1 (JsonRpcMore.absent_params_need_optional_parameters note))).
  intros key spec Hin. apply list_elem_of_In in Hin. simpl in Hin.
  destruct Hin as [[= <- <-]|[[= <- <-]|[]]]; reflexivity.
Defined.

Lemma full_array_covers_every_parameter_witness :
  dom (<["a" := JString "1"]> {[ "b" := JString "2" ]} : gmap string JsValue) =
  list_to_set (Dict.keys (args (runtime pair))).
Proof.
  apply (JsonRpcMore.full_array_covers_every_parameter pair
           [JString "1"; JString "2"] _ Instances.pair_wf Instances.pair_own).
  - vm_compute. lia.
  - vm_compute. reflexivity.
Defined.

Lemma tokens_hold_no_quote_witness :
  allChars (fun c => negb (isQuote c)) "5" = true.
Proof.
  apply (LineMore.tokens_hold_no_quote addLine "5").
  apply (bool_decide_unpack _). vm_compute. reflexivity.
Defined.

Lemma quoted_span_is_one_token_witness :
  tokenize (String quote ("two words" ++ String quote " after")) =
  "two words" :: tokenize " after".
Proof.
  apply (LineMore.quoted_span_is_one_token "two words" " after").
  - discriminate.
  - reflexivity.
Defined.

Lemma plain_line_split_at_white_space_witness :
  tokenize "add" = ["add"]
  ∧ tokenize ("add" ++ String " " "5") = (tokenize "add" ++ tokenize "5")%list.
Proof.
  split.
  - apply (proj1 LineMore.plain_line_split_at_white_space "add");
      [discriminate | reflexivity].
  - apply (proj2 LineMore.plain_line_split_at_white_space "add" " "%char "5");
      reflexivity.
Defined.

Lemma blank_line_throws_witness :
  ∃ e, parseLine Minimist.minimist render render [("add", add)] "   " = (Thrown e, []).
Proof.
  apply (LineMore.blank_line_throws Minimist.minimist render render [("add", add)] "   ").
  - discriminate.
  - reflexivity.
Defined.

Lemma help_line_answer_witness :
  parseLine Minimist.minimist render render [("add", add)] "help add" =
  (Resolved (getCommandHelp add), []).
Proof.
  apply (LineMore.help_line_answer Minimist.minimist render render [("add", add)]
           "help add" ["add"] eq_refl).
  intros second [= <-]. apply (bool_decide_unpack _). vm_compute. reflexivity.
Defined.

Lemma line_failure_in_declaration_order_witness :
  parseLine Minimist.minimist render render [("pair", pair)] pairLine =
  (Resolved ("Error: Parsing parameter '" ++ "b" ++ "': " ++
             messageOf (ErrorObj "Data is null") ++
             newline ++ newline ++ getCommandHelp pair), []).
Proof.
  apply (LineMore.line_failure_in_declaration_order Minimist.minimist render render
           [("pair", pair)] pairLine pair pairFlagged "b" (ErrorObj "Data is null")
           Instances.pairLine_dispatches Instances.pair_wf).
  eexists [_], _, _, _. split; [reflexivity |]. split; [| reflexivity].
  constructor; [reflexivity | constructor].
Defined.

Lemma pairWords_dispatches :
  dispatches Minimist.minimist [("pair", pair)] "pair 1 2" pair pairWords.
Proof.
  exists "pair", ["1"; "2"]. split; [reflexivity |]. split; [discriminate |].
  split; [reflexivity |]. vm_compute. reflexivity.
Defined.

Lemma pairMoreWords_dispatches :
  dispatches Minimist.minimist [("pair", pair)] "pair 1 2 3 4" pair pairMoreWords.
Proof.
  exists "pair", ["1"; "2"; "3"; "4"]. split; [reflexivity |]. split; [discriminate |].
  split; [reflexivity |]. vm_compute. reflexivity.
Defined.

Lemma line_success_witness :
  ∃ typed,
    dom typed = list_to_set (Dict.keys (args (runtime pair))) ∧
    parseLine Minimist.minimist render render [("pair", pair)] "pair 1 2" =
    (match runtime_parser (runtime pair) typed with
     | Ok (JString text) => Resolved text
     | Ok response => Resolved (formatResponseForCli render render response)
     | Err e => Rejected e
     end, [{| invoked := cmd pair; arguments := typed |}]).
Proof.
  apply (LineMore.line_success Minimist.minimist render render [("pair", pair)]
           "pair 1 2" pair pairWords pairWords_dispatches Instances.pair_wf).
  repeat constructor.
Defined.

Lemma extra_words_ignored_witness :
  parseLine Minimist.minimist render render [("pair", pair)] "pair 1 2" =
  parseLine Minimist.minimist render render [("pair", pair)] "pair 1 2 3 4".
Proof.
  apply (LineMore.extra_words_ignored Minimist.minimist render render [("pair", pair)]
           "pair 1 2" "pair 1 2 3 4" pair pairWords pairMoreWords
           pairWords_dispatches pairMoreWords_dispatches Instances.pair_wf).
  - intros key Hin. apply list_elem_of_In in Hin. simpl in Hin.
    destruct Hin as [<-|[<-|[]]]; reflexivity.
  - intros i Hi. simpl in Hi.
    assert (i = 1 ∨ i = 2)%nat as [->| ->] by lia; reflexivity.
Defined.


Lemma cmdEnumParser_candidates_witness :
  (cmdEnumParser ["x"; "y"] false (JString "z") = Ok (JString "z") ∧
   ∃ text, JString "z" = JString text ∧ text ∈ ["x"; "y"])
  ∨ (cmdEnumParser ["x"; "y"] false (JString "z") =
     Err (ErrorObj ("Invalid enum value, possible values: " ++
                    String.concat ", " ["x"; "y"])) ∧
     ∀ text, JString "z" = JString text → text ∉ ["x"; "y"]).
Proof.
  exact (ParserMore.cmdEnumParser_candidates ["x"; "y"] false (JString "z") eq_refl).
Defined.

Lemma cmdBigIntParser_bounds_witness :
  cmdBigIntParser (Some 0%Z) (Some 100%Z) false (Some "100") = Ok (Some 100%Z).
Proof.
  apply (proj2 (proj2 (proj2 (ParserMore.cmdBigIntParser_bounds 0 100 false "100")
                         100%Z eq_refl))). lia.
Defined.

Lemma cmdBigIntParser_reads_whole_text_witness :
  cmdBigIntParser None None false (Some ("1" ++ String "." "5")) =
  Err (BigIntSyntaxError ("1" ++ String "." "5")).
Proof.
  apply (proj1 (ParserMore.cmdBigIntParser_reads_whole_text None None false));
    (reflexivity || discriminate).
Defined.

Lemma cmdNumberParser_ignores_what_follows_witness :
  cmdNumberParser false None None false (Some ("12" ++ String "." "5")) =
  cmdNumberParser false None None false (Some "12").
Proof.
  apply (ParserMore.cmdNumberParser_ignores_what_follows None None false "12" "." "5").
  - reflexivity.
  - intros H. vm_compute in H. discriminate H.
Defined.

Lemma registerCommand_keeps_table_witness :
  let after := (CommandHandler.registerCommand [("add", add)] pair).2 in
  Dict.wf after
  ∧ keyedByName after
  ∧ (∀ name found,
       Dict.get after name = Some found →
       cmd found = name ∧ (Dict.get [("add", add)] name = Some found ∨ found = pair)).
Proof.
  apply (RegistryMore.registerCommand_keeps_table [("add", add)] pair).
  - apply (bool_decide_unpack _). vm_compute. reflexivity.
  - intros name c Hin. apply list_elem_of_In in Hin. simpl in Hin.
    destruct Hin as [[= <- <-]|[]]. reflexivity.
Defined.

Lemma create_keeps_last_witness :
  Dict.get
    (CommandHandler.create
       [add; {| cmd := "add"; description := "Another"; runtime := runtime store |}])
    "add" =
  Some {| cmd := "add"; description := "Another"; runtime := runtime store |}.
Proof.
  assert (Forall (fun c : Command JsValue => cmd c ∉ inheritedNames)
            [add; {| cmd := "add"; description := "Another"; runtime := runtime store |}])
    as Hnames.
  { repeat constructor; apply Instances.add_not_inherited. }
  rewrite (proj2 (proj2 (RegistryMore.create_keeps_last _ Hnames)) "add"
             Instances.add_not_inherited).
  reflexivity.
Defined.

Lemma registration_is_visible_witness :
  handleJsonRpcRequest (CommandHandler.registerCommand [("pair", pair)] add).2 addByName =
  handleJsonRpcRequest [(cmd add, add)] addByName.
Proof.
  assert (cmd add ∉ inheritedNames) as Hown
    by (apply (bool_decide_unpack _); vm_compute; reflexivity).
  apply (proj1 (RegistryMore.registration_is_visible [("pair", pair)] add addByName
                  eq_refl Hown)).
  reflexivity.
Defined.

Lemma fromDecimal_toDecimal_witness :
  fromDecimal (toDecimal 1505 3 false) 3 = Some 1505%Z.
Proof. apply (UtilsFacts.fromDecimal_toDecimal 1505 3). lia. Defined.

Lemma fromDecimal_reads_decimal_text_witness :
  fromDecimal (pretty 1%Z) 3 = Some (1 * 10 ^ 3)%Z
  ∧ fromDecimal (pretty 1%Z ++ "." ++ "23456") 3 =
    Some (1 * 10 ^ 3 + digitsValue (padEnd (substringTo "23456" 3) 3))%Z.
Proof.
  apply (UtilsFacts.fromDecimal_reads_decimal_text 1 3 "23456"); [lia | lia | reflexivity].
Defined.

Lemma toDecimal_cut_witness :
  toDecimal 1250 3 true = toDecimal 1250 3 false
  ∧ toDecimal 1005 3 true ≠ toDecimal 1005 3 false.
Proof.
  split.
  - apply (proj2 (UtilsFacts.toDecimal_cut 1250 3) "1.2" "5"%char "0"%char);
      [lia | reflexivity | discriminate].
  - intros Heq.
    apply (proj1 (proj2 (UtilsFacts.toDecimal_cut 1005 3) "1.0" "0"%char "5"%char
                    ltac:(lia) eq_refl) Heq).
    reflexivity.
Defined.

End MoreInstances.
